(** * Branch protection rules: validation and provider mappings

    A shallow embedding of [otterdog/models/branch_protection_rule.py]:
    the cross-field validator [validate], the two constructors
    [from_model] and [from_provider], and the wire-payload builder
    [_to_provider], followed by the properties of these functions. *)

From Stdlib Require Import ZArith Ascii String List Lia.
From stdpp Require Import base option gmap sets list strings.

(* stdpp's nested-inductive and solver warnings under this Rocq version *)
Set Warnings "-register-all,-clear-no-such-hyp".

(** ** Python values, exceptions and the two effect monads *)

Module Py.

(** The JSON-like universe the dictionaries of the program range over,
    extended with the [UNSET] sentinel of [otterdog.utils].  Numbers are
    integers, which is what the one numeric field is declared as. *)
Inductive value : Type :=
| VUnset
| VNone
| VBool (b : bool)
| VInt (z : Z)
| VStr (s : string)
| VList (l : list value)
| VDict (d : gmap string value).

Inductive exn : Type :=
| KeyError (key : string)
| TypeError
| ValueError
| AssertionError
| BendingException (key : string) (cause : exn)
| ProviderError (msg : string).

Inductive result (A : Type) : Type :=
| Ok (a : A)
| Raise (e : exn).
Arguments Ok {A} a.
Arguments Raise {A} e.

#[global] Instance result_ret : MRet result := @Ok.
#[global] Instance result_bind : MBind result := λ A B f r,
  match r with
  | Ok a => f a
  | Raise e => Raise e
  end.
#[global] Instance result_fmap : FMap result := λ A B f r,
  match r with
  | Ok a => Ok (f a)
  | Raise e => Raise e
  end.

(** Code that also mutates an object or calls out: a state [S] is threaded
    through, and survives an exception as it was when the exception was
    raised. *)
Record M (S A : Type) : Type := MkM { run : S → result A * S }.
Arguments MkM {S A} run.
Arguments run {S A} m s.

#[global] Instance M_ret {S} : MRet (M S) := λ A a, MkM (λ s, (Ok a, s)).
#[global] Instance M_bind {S} : MBind (M S) := λ A B f m,
  MkM (λ s, match run m s with
            | (Ok a, s') => run (f a) s'
            | (Raise e, s') => (Raise e, s')
            end).

Definition lift {S A} (r : result A) : M S A := MkM (λ s, (r, s)).
Definition modify {S} (f : S → S) : M S unit := MkM (λ s, (Ok tt, f s)).
Definition gets {S A} (f : S → A) : M S A := MkM (λ s, (Ok (f s), s)).

(** [for x in xs: acc = body(acc, x)] *)
Fixpoint for_each {A B} (body : B → A → result B) (xs : list A) (acc : B)
  : result B :=
  match xs with
  | [] => Ok acc
  | x :: xs' => acc' ← body acc x; for_each body xs' acc'
  end.

(** [x is True], [x is False], [x is None] *)
Definition is_True (v : value) : bool :=
  match v with VBool true => true | _ => false end.
Definition is_False (v : value) : bool :=
  match v with VBool false => true | _ => false end.
Definition is_None (v : value) : bool :=
  match v with VNone => true | _ => false end.

(** [x < 0]: defined on integers and booleans ([True] is [1], [False] is
    [0]); every other value raises [TypeError]. *)
Definition lt_zero (v : value) : result bool :=
  match v with
  | VInt z => Ok (z <? 0)%Z
  | VBool _ => Ok false
  | _ => Raise TypeError
  end.

(** [len(x)] *)
Definition len (v : value) : result nat :=
  match v with
  | VStr s => Ok (String.length s)
  | VList l => Ok (length l)
  | VDict d => Ok (size d)
  | _ => Raise TypeError
  end.

(** The elements a [for] loop or [map] visits: the items of a list, the
    characters of a string, the keys of a dictionary (in the order of the
    finite map, which does not record the order of insertion). *)
Fixpoint chars (s : string) : list value :=
  match s with
  | EmptyString => []
  | String c s' => VStr (String c EmptyString) :: chars s'
  end.

Definition iter (v : value) : result (list value) :=
  match v with
  | VList l => Ok l
  | VStr s => Ok (chars s)
  | VDict d => Ok (VStr <$> (map_to_list d).*1)
  | _ => Raise TypeError
  end.

(** [x[key]] for a string key. *)
Definition subscript (v : value) (key : string) : result value :=
  match v with
  | VDict d => match d !! key with
               | Some x => Ok x
               | None => Raise (KeyError key)
               end
  | _ => Raise TypeError
  end.

(** [x == s] for a string literal [s]: only a string equals a string. *)
Definition eq_str (v : value) (s : string) : bool :=
  match v with VStr s' => bool_decide (s' = s) | _ => false end.

(** ** Strings *)

Definition colon : ascii := ":"%char.

(** [":" in s] on a string. *)
Fixpoint str_contains (c : ascii) (s : string) : bool :=
  match s with
  | EmptyString => false
  | String c' s' => if Ascii.eqb c' c then true else str_contains c s'
  end.

(** [":" in x] on any value: substring test on a string, membership on a
    list, key membership on a dictionary. *)
Definition contains_colon (v : value) : result bool :=
  match v with
  | VStr s => Ok (str_contains colon s)
  | VList l => Ok (existsb (λ x, eq_str x ":") l)
  | VDict d => Ok (bool_decide (is_Some (d !! ":")))
  | _ => Raise TypeError
  end.

(** [re.split(":", s, 1)]: at most one split, at the first separator. *)
Fixpoint split_first (c : ascii) (s : string) : option (string * string) :=
  match s with
  | EmptyString => None
  | String c' s' =>
      if Ascii.eqb c' c then Some (EmptyString, s')
      else match split_first c s' with
           | Some (l, r) => Some (String c' l, r)
           | None => None
           end
  end.

Definition re_split_colon_1 (v : value) : result (list string) :=
  match v with
  | VStr s => match split_first colon s with
              | Some (l, r) => Ok [l; r]
              | None => Ok [s]
              end
  | _ => Raise TypeError
  end.

(** [a, b = xs] *)
Definition unpack2 {A} (xs : list A) : result (A * A) :=
  match xs with
  | [a; b] => Ok (a, b)
  | _ => Raise ValueError
  end.

End Py.
Export Py.

(** ** [otterdog.utils] *)

Module Utils.

(** Modelled from the spec: [UNSET] of [otterdog/utils.py], the sentinel
    of a field the user did not specify. *)
Definition UNSET : value := VUnset.

(** Modelled from the spec: [is_unset] of [otterdog/utils.py], the test
    for the sentinel. *)
Definition is_unset (v : value) : bool :=
  match v with VUnset => true | _ => false end.

(** Modelled from the spec: [is_set_and_valid] of [otterdog/utils.py]; a
    value is set and valid when it is neither the sentinel nor the null
    value that a malformed field holds. *)
Definition is_set_and_valid (v : value) : bool :=
  negb (is_unset v) && negb (is_None v).

End Utils.
Export Utils.

(** ** Ordered dictionaries

    A Python [dict] whose insertion order matters (the mapping handed to
    [bend] is walked in that order, which decides the exception that is
    raised first): an association list with unique keys. *)

Module ODict.

Definition odict (A : Type) : Type := list (string * A).

Definition has_key {A} (k : string) (m : odict A) : bool :=
  existsb (λ kb, bool_decide (kb.1 = k)) m.

Fixpoint get {A} (k : string) (m : odict A) : option A :=
  match m with
  | [] => None
  | (k', a) :: m' => if decide (k' = k) then Some a else get k m'
  end.

Fixpoint remove {A} (k : string) (m : odict A) : odict A :=
  match m with
  | [] => []
  | (k', a) :: m' =>
      if decide (k' = k) then remove k m' else (k', a) :: remove k m'
  end.

(** [m.pop(k)] without a default: [KeyError] when the key is missing. *)
Definition pop {A} (k : string) (m : odict A) : result (odict A) :=
  if has_key k m then Ok (remove k m) else Raise (KeyError k).

(** [m[k] = a]: an existing key keeps its position. *)
Fixpoint setitem {A} (k : string) (a : A) (m : odict A) : odict A :=
  match m with
  | [] => [(k, a)]
  | (k', a') :: m' =>
      if decide (k' = k) then (k, a) :: m' else (k', a') :: setitem k a m'
  end.

End ODict.

(** ** The field projection engine ([jsonbender]) *)

Module JsonBender.

(** Modelled from the spec: the [jsonbender] library is an external
    collaborator.  A mapping sends each target field name to an extraction
    expression: a key lookup that must succeed ([S]), a key lookup with a
    default ([OptionalS]), a constant ([K]), and an expression piped into a
    function ([b >> f]); [Forall f] is the element-wise transform over a
    list.  A failure while a key is computed aborts the conversion with an
    exception that names the key. *)
Inductive bender : Type :=
| S (key : string)
| OptionalS (key : string) (default : value)
| K (v : value)
| Pipe (b : bender) (f : value → result value).

Fixpoint traverse {A B} (f : A → result B) (xs : list A) : result (list B) :=
  match xs with
  | [] => Ok []
  | x :: xs' => y ← f x; ys ← traverse f xs'; Ok (y :: ys)
  end.

Definition Forall (f : value → result value) (source : value) : result value :=
  xs ← iter source; VList <$> traverse f xs.

Fixpoint execute (b : bender) (source : gmap string value) : result value :=
  match b with
  | S key => match source !! key with
             | Some v => Ok v
             | None => Raise (KeyError key)
             end
  | OptionalS key default => match source !! key with
                             | Some v => Ok v
                             | None => Ok default
                             end
  | K v => Ok v
  | Pipe b' f => v ← execute b' source; f v
  end.

Fixpoint bend_loop (mapping : ODict.odict bender) (source res : gmap string value)
  : result (gmap string value) :=
  match mapping with
  | [] => Ok res
  | (k, b) :: mapping' =>
      match execute b source with
      | Ok v => bend_loop mapping' source (<[k := v]> res)
      | Raise e => Raise (BendingException k e)
      end
  end.

Definition bend (mapping : ODict.odict bender) (source : gmap string value)
  : result (gmap string value) :=
  bend_loop mapping source ∅.

End JsonBender.

(** ** The external collaborators of the model *)

Module Collab.

Inductive FailureType : Type := WARNING | ERROR.

(** Modelled from the spec: [ValidationContext] of
    [otterdog/models/__init__.py], which accumulates the validation
    findings, each a severity and a message. *)
Record ValidationContext : Type :=
  { validation_failures : list (FailureType * string) }.

(** Modelled from the spec: [ValidationContext.add_failure], which appends
    one finding. *)
Definition add_failure (context : ValidationContext)
    (failure_type : FailureType) (message : string) : ValidationContext :=
  {| validation_failures :=
       validation_failures context ++ [(failure_type, message)] |}.

(** The parent repository, of which only the name is read. *)
Record Repository : Type := { name : value }.

(** Modelled from the spec: the identifier resolver
    ([otterdog.providers.github.Github]) is consumed through two calls,
    [get_actor_ids] from a reference list to the list of actor
    identifiers, and [get_app_ids] from a set of app slugs to a mapping
    from slug to app identifier; either may fail. *)
Record Github : Type :=
  { get_actor_ids : value → result (list string);
    get_app_ids : gset string → result (gmap string string) }.

(** What [_to_provider] asked of the resolver, in order. *)
Inductive call : Type :=
| GetActorIds (actor_names : value)
| GetAppIds (app_slugs : gset string).

Definition call_get_actor_ids (provider : Github) (actor_names : value)
  : M (list call) (list string) :=
  MkM (λ log, (get_actor_ids provider actor_names,
               log ++ [GetActorIds actor_names])).

Definition call_get_app_ids (provider : Github) (app_slugs : gset string)
  : M (list call) (gmap string string) :=
  MkM (λ log, (get_app_ids provider app_slugs, log ++ [GetAppIds app_slugs])).

(** [assert provider is not None] *)
Definition assert_not_None {S A} (provider : option A) : M S A :=
  match provider with
  | Some p => mret p
  | None => lift (Raise AssertionError)
  end.

End Collab.
Export Collab.

(** ** The entity *)

Module Model.
Import JsonBender.

(** The dataclass, fields in declaration order.  Every field can hold any
    value: the annotations of a dataclass are not enforced, and a field the
    user left out holds [UNSET]. *)
Record BranchProtectionRule : Type :=
  { id_ : value;
    pattern : value;
    allowsDeletions : value;
    allowsForcePushes : value;
    dismissesStaleReviews : value;
    isAdminEnforced : value;
    lockAllowsFetchAndMerge : value;
    lockBranch : value;
    bypassForcePushAllowances : value;
    bypassPullRequestAllowances : value;
    pushRestrictions : value;
    requireLastPushApproval : value;
    requiredApprovingReviewCount : value;
    requiresApprovingReviews : value;
    requiresCodeOwnerReviews : value;
    requiresCommitSignatures : value;
    requiresConversationResolution : value;
    requiresLinearHistory : value;
    requiresStatusChecks : value;
    requiresStrictStatusChecks : value;
    restrictsReviewDismissals : value;
    reviewDismissalAllowances : value;
    requiredStatusChecks : value }.

(** Modelled from the spec: [all_fields] of [ModelObject], the generic
    object/field model: the declared fields, in order. *)
Definition all_fields : list string :=
  [ "id"; "pattern"; "allowsDeletions"; "allowsForcePushes";
    "dismissesStaleReviews"; "isAdminEnforced"; "lockAllowsFetchAndMerge";
    "lockBranch"; "bypassForcePushAllowances"; "bypassPullRequestAllowances";
    "pushRestrictions"; "requireLastPushApproval";
    "requiredApprovingReviewCount"; "requiresApprovingReviews";
    "requiresCodeOwnerReviews"; "requiresCommitSignatures";
    "requiresConversationResolution"; "requiresLinearHistory";
    "requiresStatusChecks"; "requiresStrictStatusChecks";
    "restrictsReviewDismissals"; "reviewDismissalAllowances";
    "requiredStatusChecks" ].

(** The one field whose metadata says [external_only]. *)
Definition external_only (field : string) : bool := bool_decide (field = "id").

(** Modelled from the spec: [provider_fields] of [ModelObject], the fields
    that are written to the provider: all but the external-only ones,
    which are present in live state and never written. *)
Definition provider_fields : list string :=
  filter (λ field, external_only field = false) all_fields.

(** [cls] applied to keyword arguments: the generated constructor takes
    exactly the declared fields, all of them required. *)
Definition arg (kwargs : gmap string value) (field : string) : result value :=
  match kwargs !! field with
  | Some v => Ok v
  | None => Raise TypeError
  end.

Definition cls (kwargs : gmap string value) : result BranchProtectionRule :=
  if bool_decide (dom kwargs ⊆ list_to_set all_fields) then
    a1 ← arg kwargs "id";
    a2 ← arg kwargs "pattern";
    a3 ← arg kwargs "allowsDeletions";
    a4 ← arg kwargs "allowsForcePushes";
    a5 ← arg kwargs "dismissesStaleReviews";
    a6 ← arg kwargs "isAdminEnforced";
    a7 ← arg kwargs "lockAllowsFetchAndMerge";
    a8 ← arg kwargs "lockBranch";
    a9 ← arg kwargs "bypassForcePushAllowances";
    a10 ← arg kwargs "bypassPullRequestAllowances";
    a11 ← arg kwargs "pushRestrictions";
    a12 ← arg kwargs "requireLastPushApproval";
    a13 ← arg kwargs "requiredApprovingReviewCount";
    a14 ← arg kwargs "requiresApprovingReviews";
    a15 ← arg kwargs "requiresCodeOwnerReviews";
    a16 ← arg kwargs "requiresCommitSignatures";
    a17 ← arg kwargs "requiresConversationResolution";
    a18 ← arg kwargs "requiresLinearHistory";
    a19 ← arg kwargs "requiresStatusChecks";
    a20 ← arg kwargs "requiresStrictStatusChecks";
    a21 ← arg kwargs "restrictsReviewDismissals";
    a22 ← arg kwargs "reviewDismissalAllowances";
    a23 ← arg kwargs "requiredStatusChecks";
    Ok {| id_ := a1; pattern := a2; allowsDeletions := a3;
          allowsForcePushes := a4; dismissesStaleReviews := a5;
          isAdminEnforced := a6; lockAllowsFetchAndMerge := a7;
          lockBranch := a8; bypassForcePushAllowances := a9;
          bypassPullRequestAllowances := a10; pushRestrictions := a11;
          requireLastPushApproval := a12;
          requiredApprovingReviewCount := a13;
          requiresApprovingReviews := a14; requiresCodeOwnerReviews := a15;
          requiresCommitSignatures := a16;
          requiresConversationResolution := a17;
          requiresLinearHistory := a18; requiresStatusChecks := a19;
          requiresStrictStatusChecks := a20;
          restrictsReviewDismissals := a21;
          reviewDismissalAllowances := a22; requiredStatusChecks := a23 |}
  else Raise TypeError.

(** [getattr(self, field)] *)
Definition attributes (self : BranchProtectionRule) : list (string * value) :=
  [ ("id", id_ self); ("pattern", pattern self);
    ("allowsDeletions", allowsDeletions self);
    ("allowsForcePushes", allowsForcePushes self);
    ("dismissesStaleReviews", dismissesStaleReviews self);
    ("isAdminEnforced", isAdminEnforced self);
    ("lockAllowsFetchAndMerge", lockAllowsFetchAndMerge self);
    ("lockBranch", lockBranch self);
    ("bypassForcePushAllowances", bypassForcePushAllowances self);
    ("bypassPullRequestAllowances", bypassPullRequestAllowances self);
    ("pushRestrictions", pushRestrictions self);
    ("requireLastPushApproval", requireLastPushApproval self);
    ("requiredApprovingReviewCount", requiredApprovingReviewCount self);
    ("requiresApprovingReviews", requiresApprovingReviews self);
    ("requiresCodeOwnerReviews", requiresCodeOwnerReviews self);
    ("requiresCommitSignatures", requiresCommitSignatures self);
    ("requiresConversationResolution", requiresConversationResolution self);
    ("requiresLinearHistory", requiresLinearHistory self);
    ("requiresStatusChecks", requiresStatusChecks self);
    ("requiresStrictStatusChecks", requiresStrictStatusChecks self);
    ("restrictsReviewDismissals", restrictsReviewDismissals self);
    ("reviewDismissalAllowances", reviewDismissalAllowances self);
    ("requiredStatusChecks", requiredStatusChecks self) ].

Definition getattr (self : BranchProtectionRule) (field : string)
  : option value :=
  ODict.get field (attributes self).

(** What [validate] can touch: the instance and the validation context. *)
Record frame : Type :=
  { self : BranchProtectionRule; context : ValidationContext }.

Definition context_add_failure (failure_type : FailureType) (message : string)
  : M frame unit :=
  modify (λ st, {| self := self st;
                   context := add_failure (context st) failure_type message |}).

Definition dquote : string := String "034"%char EmptyString.

Section WithStr.

(** Python's [str()] as the f-strings apply it: the identity on a string;
    the rendering of any other value is left open. *)
Variable str_other : value → string.

Definition py_str (v : value) : string :=
  match v with
  | VStr s => s
  | _ => str_other v
  end.

(** The common head of the four messages, which names the repository and
    the pattern of the rule. *)
Definition message_head (repo_name pattern' : value) : string :=
  "branch_protection_rule[repo=" +:+ dquote +:+ py_str repo_name +:+ dquote
  +:+ ",pattern=" +:+ dquote +:+ py_str pattern' +:+ dquote +:+ "] has".

(** The four messages, lines 56-58, 67-68, 77-78 and 87-88. *)
Definition message_approving_reviews (repo_name pattern' : value) : string :=
  message_head repo_name pattern'
  +:+ " 'requiredApprovingReviews' enabled but 'requiredApprovingReviewCount' "
  +:+ "is not set.".

Definition message_review_dismissals (repo_name pattern' : value) : string :=
  message_head repo_name pattern'
  +:+ " 'restrictsReviewDismissals' disabled but 'reviewDismissalAllowances' is set.".

Definition message_force_pushes (repo_name pattern' : value) : string :=
  message_head repo_name pattern'
  +:+ " 'allowsForcePushes' enabled but 'bypassForcePushAllowances' is not empty.".

Definition message_status_checks (repo_name pattern' : value) : string :=
  message_head repo_name pattern'
  +:+ " 'requiresStatusChecks' disabled but 'requiredStatusChecks' is not empty.".

(** Lines 50-58. *)
Definition check_approving_reviews (parent_object : Repository)
  : M frame unit :=
  let repo_name := name parent_object in
  this ← gets self;
  let requiresApprovingReviews' := is_True (requiresApprovingReviews this) in
  let requiredApprovingReviewCount' := requiredApprovingReviewCount this in
  if requiresApprovingReviews' && negb (is_unset requiredApprovingReviewCount')
  then
    bad ← (if is_None requiredApprovingReviewCount' then mret true
           else lift (lt_zero requiredApprovingReviewCount'));
    if bad : bool then
      context_add_failure ERROR
        (message_approving_reviews repo_name (pattern this))
    else mret tt
  else mret tt.

(** [toggle and is_set_and_valid(xs) and len(xs) > 0], left to right. *)
Definition toggle_and_nonempty (toggle : bool) (xs : value) : result bool :=
  if toggle then
    if is_set_and_valid xs then n ← len xs; Ok (0 <? n) else Ok false
  else Ok false.

(** Lines 60-68. *)
Definition check_review_dismissals (parent_object : Repository)
  : M frame unit :=
  let repo_name := name parent_object in
  this ← gets self;
  let permitsReviewDismissals := is_False (restrictsReviewDismissals this) in
  let reviewDismissalAllowances' := reviewDismissalAllowances this in
  bad ← lift (toggle_and_nonempty permitsReviewDismissals
                reviewDismissalAllowances');
  if bad : bool then
    context_add_failure ERROR
      (message_review_dismissals repo_name (pattern this))
  else mret tt.

(** Lines 70-78. *)
Definition check_force_pushes (parent_object : Repository) : M frame unit :=
  let repo_name := name parent_object in
  this ← gets self;
  let allowsForcePushes' := is_True (allowsForcePushes this) in
  let bypassForcePushAllowances' := bypassForcePushAllowances this in
  bad ← lift (toggle_and_nonempty allowsForcePushes'
                bypassForcePushAllowances');
  if bad : bool then
    context_add_failure ERROR
      (message_force_pushes repo_name (pattern this))
  else mret tt.

(** Lines 80-88. *)
Definition check_status_checks (parent_object : Repository) : M frame unit :=
  let repo_name := name parent_object in
  this ← gets self;
  let ignoresStatusChecks := is_False (requiresStatusChecks this) in
  let requiredStatusChecks' := requiredStatusChecks this in
  bad ← lift (toggle_and_nonempty ignoresStatusChecks requiredStatusChecks');
  if bad : bool then
    context_add_failure ERROR
      (message_status_checks repo_name (pattern this))
  else mret tt.

Definition validate (parent_object : Repository) : M frame unit :=
  check_approving_reviews parent_object;;
  check_review_dismissals parent_object;;
  check_force_pushes parent_object;;
  check_status_checks parent_object.

(** [from_model], lines 90-93. *)
Definition from_model (data : gmap string value) : result BranchProtectionRule :=
  let mapping := (λ k, (k, OptionalS k UNSET)) <$> all_fields in
  kwargs ← bend mapping data;
  cls kwargs.

(** [transform_app], lines 99-112. *)
Definition transform_app (x : value) : result string :=
  app ← subscript x "app";
  context' ← subscript x "context";
  app_prefix ←
    (if is_None app then Ok "any:"
     else
       app_slug ← subscript app "slug";
       if eq_str app_slug "github-actions" then Ok ""
       else Ok (py_str app_slug +:+ ":"));
  Ok (app_prefix +:+ py_str context').

(** [from_provider], lines 95-116. *)
Definition from_provider (data : gmap string value)
  : result BranchProtectionRule :=
  let mapping := (λ k, (k, S k)) <$> all_fields in
  let mapping :=
    ODict.setitem "requiredStatusChecks"
      (Pipe (S "requiredStatusChecks")
            (Forall (λ x, VStr <$> transform_app x)))
      mapping in
  kwargs ← bend mapping data;
  cls kwargs.

End WithStr.

(** *** [_to_provider], lines 118-189 *)

(** Lines 123-130. *)
Definition to_provider_pushRestrictions (data : gmap string value)
    (provider : option Github) (mapping : ODict.odict bender)
  : M (list call) (ODict.odict bender) :=
  match data !! "pushRestrictions" with
  | Some restricts_pushes =>
      mapping ← lift (ODict.pop "pushRestrictions" mapping);
      if is_set_and_valid restricts_pushes then
        p ← assert_not_None provider;
        actor_ids ← call_get_actor_ids p restricts_pushes;
        let mapping :=
          ODict.setitem "pushActorIds" (K (VList (VStr <$> actor_ids)))
            mapping in
        let mapping :=
          ODict.setitem "restrictsPushes"
            (K (VBool (if 0 <? length actor_ids then true else false)))
            mapping in
        mret mapping
      else mret mapping
  | None => mret mapping
  end.

(** Lines 132-138, 140-146 and 148-154 are the same block for three pairs
    of a declarative field and its wire field. *)
Definition to_provider_actors (field target : string)
    (data : gmap string value) (provider : option Github)
    (mapping : ODict.odict bender) : M (list call) (ODict.odict bender) :=
  match data !! field with
  | Some allowances =>
      mapping ← lift (ODict.pop field mapping);
      if is_set_and_valid allowances then
        p ← assert_not_None provider;
        actor_ids ← call_get_actor_ids p allowances;
        mret (ODict.setitem target (K (VList (VStr <$> actor_ids))) mapping)
      else mret mapping
  | None => mret mapping
  end.

(** Lines 164-171: one step of the loop that collects the app slugs. *)
Definition collect_app_slug (app_slugs : gset string) (check : value)
  : result (gset string) :=
  has_colon ← contains_colon check;
  if has_colon : bool then
    parts ← re_split_colon_1 check;
    '(app_slug, context') ← unpack2 parts;
    if bool_decide (app_slug ≠ "any") then Ok ({[ app_slug ]} ∪ app_slugs)
    else Ok app_slugs
  else Ok ({[ "github-actions" ]} ∪ app_slugs).

(** Lines 176-186: one step of the loop that builds the wire entries. *)
Definition transform_check (app_ids : gmap string string)
    (transformed_checks : list value) (check : value) : result (list value) :=
  has_colon ← contains_colon check;
  '(app_slug, context') ←
    (if has_colon : bool then
       parts ← re_split_colon_1 check;
       '(app_slug, context') ← unpack2 parts;
       Ok (app_slug, VStr context')
     else Ok ("github-actions", check));
  if bool_decide (app_slug = "any") then
    Ok (transformed_checks
          ++ [VDict {[ "appId" := VStr "any"; "context" := context' ]}])
  else
    match app_ids !! app_slug with
    | Some app_id =>
        Ok (transformed_checks
              ++ [VDict {[ "appId" := VStr app_id; "context" := context' ]}])
    | None => Raise (KeyError app_slug)
    end.

(** Lines 156-188. *)
Definition to_provider_requiredStatusChecks (data : gmap string value)
    (provider : option Github) (mapping : ODict.odict bender)
  : M (list call) (ODict.odict bender) :=
  match data !! "requiredStatusChecks" with
  | Some required_status_checks =>
      mapping ← lift (ODict.pop "requiredStatusChecks" mapping);
      if is_set_and_valid required_status_checks then
        p ← assert_not_None provider;
        checks ← lift (iter required_status_checks);
        app_slugs ← lift (for_each collect_app_slug checks ∅);
        app_ids ← call_get_app_ids p app_slugs;
        transformed_checks ← lift (for_each (transform_check app_ids) checks []);
        mret (ODict.setitem "requiredStatusChecks"
                (K (VList transformed_checks)) mapping)
      else mret mapping
  | None => mret mapping
  end.

Definition _to_provider (data : gmap string value) (provider : option Github)
  : M (list call) (gmap string value) :=
  let mapping :=
    (λ field, (field, S field))
      <$> filter (λ field, is_unset (default UNSET (data !! field)) = false)
            provider_fields in
  mapping ← to_provider_pushRestrictions data provider mapping;
  mapping ← to_provider_actors "reviewDismissalAllowances"
              "reviewDismissalActorIds" data provider mapping;
  mapping ← to_provider_actors "bypassPullRequestAllowances"
              "bypassPullRequestActorIds" data provider mapping;
  mapping ← to_provider_actors "bypassForcePushAllowances"
              "bypassForcePushActorIds" data provider mapping;
  mapping ← to_provider_requiredStatusChecks data provider mapping;
  lift (bend mapping data).

End Model.
Export Model.

(** ** Vocabulary of the properties *)

Module Spec.

(** *** The validator *)

(** The frame after the findings [fs] were added to the context. *)
Definition report (st : frame) (fs : list (FailureType * string)) : frame :=
  {| self := self st;
     context := {| validation_failures :=
                     validation_failures (context st) ++ fs |} |}.

Definition mentions (message field : string) : Prop :=
  ∃ before after, message = before +:+ field +:+ after.

(** Whatever happens, a check leaves the instance alone and only appends
    findings to the context. *)
Definition appends_only (m : M frame unit) : Prop :=
  ∀ st, ∃ fs, (run m st).2 = report st fs.

(** The values the fields the validator reads can hold under their
    annotations [int] and [list[str]], next to the unset and the null
    state. *)
Definition int_field (v : value) : bool :=
  match v with VUnset | VNone | VInt _ => true | _ => false end.

Definition list_field (v : value) : bool :=
  match v with VUnset | VNone | VList _ => true | _ => false end.

Definition typed_for_validate (this : BranchProtectionRule) : bool :=
  int_field (requiredApprovingReviewCount this)
  && list_field (reviewDismissalAllowances this)
  && list_field (bypassForcePushAllowances this)
  && list_field (requiredStatusChecks this).

(** When each of the four checks reports, as the code tests it. *)
Definition nonempty_list (v : value) : bool :=
  match v with VList (_ :: _) => true | _ => false end.

(** The condition of lines 53-54.  It is narrower than the first invariant
    of the data model: a count in the unset state is skipped by the guard of
    line 53, and only a null or negative count is reported. *)
Definition violates_approving_reviews (this : BranchProtectionRule) : bool :=
  is_True (requiresApprovingReviews this)
  && match requiredApprovingReviewCount this with
     | VNone => true
     | VInt z => (z <? 0)%Z
     | _ => false
     end.

Definition violates_review_dismissals (this : BranchProtectionRule) : bool :=
  is_False (restrictsReviewDismissals this)
  && nonempty_list (reviewDismissalAllowances this).

Definition violates_force_pushes (this : BranchProtectionRule) : bool :=
  is_True (allowsForcePushes this)
  && nonempty_list (bypassForcePushAllowances this).

Definition violates_status_checks (this : BranchProtectionRule) : bool :=
  is_False (requiresStatusChecks this)
  && nonempty_list (requiredStatusChecks this).

(** The first invariant in the words of the data model: when
    [requiresApprovingReviews] is true, the count must be set and
    non-negative.  An unset count breaks it. *)
Definition breaks_invariant_1 (this : BranchProtectionRule) : bool :=
  is_True (requiresApprovingReviews this)
  && negb match requiredApprovingReviewCount this with
          | VInt z => (0 <=? z)%Z
          | _ => false
          end.

(** How often a list of findings holds the ERROR finding with a given
    message. *)
Definition is_finding (message : string) (finding : FailureType * string)
  : bool :=
  match finding.1 with
  | ERROR => bool_decide (finding.2 = message)
  | WARNING => false
  end.

Definition reported (message : string) (fs : list (FailureType * string))
  : nat :=
  length (List.filter (is_finding message) fs).

(** One toggle/list pair, on the findings [fs] that [validate] added: the
    finding of the pair is there exactly once when the toggle has the
    stated value and the list is set, valid and non-empty, and not at all
    when the list is empty, unset or invalid. *)
Definition pair_rule (fs : list (FailureType * string))
    (toggle : BranchProtectionRule → value) (stated : bool)
    (allowances : BranchProtectionRule → value) (message : string)
    (this : BranchProtectionRule) : Prop :=
  (∀ l, toggle this = VBool stated → allowances this = VList l → l ≠ [] →
        reported message fs = 1)
  ∧ (allowances this = VList [] ∨ allowances this = VUnset
     ∨ allowances this = VNone →
     reported message fs = 0).

Definition finding_if (violated : bool) (message : string)
  : list (FailureType * string) :=
  if violated then [(ERROR, message)] else [].

(** *** The projection engine *)

Definition ok_value {A} (r : result A) : option A :=
  match r with Ok a => Some a | Raise _ => None end.

(** An ordered mapping and the finite map with the same bindings. *)
Definition agrees {A} (m : ODict.odict A) (g : gmap string A) : Prop :=
  NoDup m.*1 ∧ ∀ k, ODict.get k m = g !! k.

(** Every expression of the mapping reads the key it is filed under. *)
Definition reads_own_key (kb : string * JsonBender.bender) : Prop :=
  kb.2 = JsonBender.S kb.1 ∨ ∃ f, kb.2 = JsonBender.Pipe (JsonBender.S kb.1) f.

(** *** The status-check codec *)

(** The wire shape of one status check. *)
Definition wire_check (app_id : string) (context' : value) : value :=
  VDict {[ "appId" := VStr app_id; "context" := context' ]}.

(** The app slug and the context a token denotes: split at the first
    colon, the default automation app when there is none. *)
Definition token_slug (token : string) : string :=
  match split_first colon token with
  | Some (slug, _) => slug
  | None => "github-actions"
  end.

Definition token_context (token : string) : string :=
  match split_first colon token with
  | Some (_, context') => context'
  | None => token
  end.

(** The distinct slugs a list of tokens refers to, the sentinel apart. *)
Definition referenced_slugs (tokens : list string) : gset string :=
  list_to_set (token_slug <$> tokens) ∖ {[ "any" ]}.

(** The wire entry of a token under the resolved identifiers. *)
Definition encode (app_ids : gmap string string) (token : string)
  : option value :=
  if bool_decide (token_slug token = "any")
  then Some (wire_check "any" (VStr (token_context token)))
  else app_id ← app_ids !! token_slug token;
       Some (wire_check app_id (VStr (token_context token))).

(** How the provider reports a stored check back: the context as it was
    sent, next to the app it belongs to (no app for "any app"). *)
Definition reported_check (app : option string) (entry : value)
  : result value :=
  context' ← subscript entry "context";
  Ok (VDict {[ "app" := match app with
                        | Some slug => VDict {[ "slug" := VStr slug ]}
                        | None => VNone
                        end;
               "context" := context' ]}).

(** Encode one token, let the provider report it back under [app], and
    decode the report. *)
Definition round_trip (str_other : value → string)
    (app_ids : gmap string string) (app : option string) (token : string)
  : result string :=
  entries ← transform_check app_ids [] (VStr token);
  match entries with
  | [entry] => x ← reported_check app entry; transform_app str_other x
  | _ => Raise ValueError
  end.

(** *** The wire payload *)

(** The sets of app slugs the resolver was asked for, in order. *)
Definition app_calls (log : list call) : list (gset string) :=
  omap (λ c, match c with GetAppIds slugs => Some slugs | _ => None end) log.

(** Modelled from the spec: the resolver's actor lookup is order-preserving,
    one identifier for each reference. *)
Definition one_id_per_reference (provider : Github) : Prop :=
  ∀ references actor_ids,
    get_actor_ids provider (VList references) = Ok actor_ids →
    length actor_ids = length references.

(** A block of [_to_provider] for an actor field goes through: the field
    is not in the data, or it is there, not as the unset sentinel, and the
    resolver answers when it is asked. *)
Definition actors_ok (provider : Github) (data : gmap string value)
    (field : string) : bool :=
  match data !! field with
  | None => true
  | Some v =>
      negb (is_unset v)
      && (if is_set_and_valid v
          then match get_actor_ids provider v with
               | Ok _ => true
               | Raise _ => false
               end
          else true)
  end.

(** The same for the block of the status checks. *)
Definition checks_ok (provider : Github) (data : gmap string value) : bool :=
  match data !! "requiredStatusChecks" with
  | None => true
  | Some v =>
      negb (is_unset v)
      && (if is_set_and_valid v
          then match (checks ← iter v;
                      app_slugs ← for_each collect_app_slug checks ∅;
                      app_ids ← get_app_ids provider app_slugs;
                      for_each (transform_check app_ids) checks []) with
               | Ok _ => true
               | Raise _ => false
               end
          else true)
  end.

(** The blocks of [_to_provider] on the finite map that [agrees] with the
    mapping. *)
Definition initial_mapping (data : gmap string value)
  : gmap string JsonBender.bender :=
  list_to_map
    ((λ field, (field, JsonBender.S field))
       <$> filter (λ field, is_unset (default UNSET (data !! field)) = false)
             provider_fields).

Definition actors_mapping (provider : Github) (data : gmap string value)
    (field target : string) (g : gmap string JsonBender.bender)
  : gmap string JsonBender.bender :=
  match data !! field with
  | None => g
  | Some v =>
      if is_set_and_valid v then
        match get_actor_ids provider v with
        | Ok actor_ids =>
            <[target := JsonBender.K (VList (VStr <$> actor_ids))]>
              (delete field g)
        | Raise _ => delete field g
        end
      else delete field g
  end.

Definition push_mapping (provider : Github) (data : gmap string value)
    (g : gmap string JsonBender.bender) : gmap string JsonBender.bender :=
  match data !! "pushRestrictions" with
  | None => g
  | Some v =>
      if is_set_and_valid v then
        match get_actor_ids provider v with
        | Ok actor_ids =>
            <["restrictsPushes" :=
                JsonBender.K (VBool (bool_decide (actor_ids ≠ [])))]>
              (<["pushActorIds" :=
                   JsonBender.K (VList (VStr <$> actor_ids))]>
                 (delete "pushRestrictions" g))
        | Raise _ => delete "pushRestrictions" g
        end
      else delete "pushRestrictions" g
  end.

Definition checks_mapping (provider : Github) (data : gmap string value)
    (g : gmap string JsonBender.bender) : gmap string JsonBender.bender :=
  match data !! "requiredStatusChecks" with
  | None => g
  | Some v =>
      if is_set_and_valid v then
        match (checks ← iter v;
               app_slugs ← for_each collect_app_slug checks ∅;
               app_ids ← get_app_ids provider app_slugs;
               for_each (transform_check app_ids) checks []) with
        | Ok transformed_checks =>
            <["requiredStatusChecks" :=
                JsonBender.K (VList transformed_checks)]>
              (delete "requiredStatusChecks" g)
        | Raise _ => delete "requiredStatusChecks" g
        end
      else delete "requiredStatusChecks" g
  end.

Definition final_mapping (provider : Github) (data : gmap string value)
  : gmap string JsonBender.bender :=
  checks_mapping provider data
    (actors_mapping provider data "bypassForcePushAllowances"
       "bypassForcePushActorIds"
       (actors_mapping provider data "bypassPullRequestAllowances"
          "bypassPullRequestActorIds"
          (actors_mapping provider data "reviewDismissalAllowances"
             "reviewDismissalActorIds"
             (push_mapping provider data (initial_mapping data))))).

(** The calls of each block. *)
Definition actors_calls (data : gmap string value) (field : string)
  : list call :=
  match data !! field with
  | Some v => if is_set_and_valid v then [GetActorIds v] else []
  | None => []
  end.

Definition checks_calls (data : gmap string value) : list call :=
  match data !! "requiredStatusChecks" with
  | Some v =>
      if is_set_and_valid v then
        match (checks ← iter v; for_each collect_app_slug checks ∅) with
        | Ok app_slugs => [GetAppIds app_slugs]
        | Raise _ => []
        end
      else []
  | None => []
  end.

Definition all_calls (data : gmap string value) : list call :=
  actors_calls data "pushRestrictions"
  ++ actors_calls data "reviewDismissalAllowances"
  ++ actors_calls data "bypassPullRequestAllowances"
  ++ actors_calls data "bypassForcePushAllowances"
  ++ checks_calls data.

(** Every expression left in the mapping can be evaluated on the data. *)
Definition evaluable (data : gmap string value)
    (g : gmap string JsonBender.bender) : Prop :=
  ∀ k b, g !! k = Some b →
         (b = JsonBender.S k ∧ is_Some (data !! k)) ∨ ∃ v, b = JsonBender.K v.

End Spec.
Export Spec.

(** ** Concrete inputs *)

Module Examples.

(** A rendering of the values that are not strings; the examples only
    format strings. *)
Definition str_other (v : value) : string := "?".

Definition repo : Repository := {| name := VStr "otterdog" |}.

Definition no_findings : ValidationContext := {| validation_failures := [] |}.

(** A rule that asks for approving reviews, with the count, the three
    toggles and the three lists as given. *)
Definition rule (count restricts dismissals forces bypass requires checks : value)
  : BranchProtectionRule :=
  {| id_ := VStr "BPR_1"; pattern := VStr "main";
     allowsDeletions := VBool false; allowsForcePushes := forces;
     dismissesStaleReviews := VBool false; isAdminEnforced := VBool true;
     lockAllowsFetchAndMerge := VBool false; lockBranch := VBool false;
     bypassForcePushAllowances := bypass;
     bypassPullRequestAllowances := VList [];
     pushRestrictions := VList []; requireLastPushApproval := VBool false;
     requiredApprovingReviewCount := count;
     requiresApprovingReviews := VBool true;
     requiresCodeOwnerReviews := VBool false;
     requiresCommitSignatures := VBool false;
     requiresConversationResolution := VBool false;
     requiresLinearHistory := VBool false; requiresStatusChecks := requires;
     requiresStrictStatusChecks := VBool false;
     restrictsReviewDismissals := restricts;
     reviewDismissalAllowances := dismissals;
     requiredStatusChecks := checks |}.

(** The rule with consistent toggles and lists, and the count as given. *)
Definition rule_with_count (count : value) : BranchProtectionRule :=
  rule count (VBool true) (VList []) (VBool false) (VList [])
       (VBool true) (VList []).

(** A rule that breaks all four invariants. *)
Definition rule_all_wrong : BranchProtectionRule :=
  rule (VInt (-1)) (VBool false) (VList [VStr "alice"]) (VBool true)
       (VList [VStr "bob"]) (VBool false) (VList [VStr "build"]).

(** A rule that breaks all four invariants of the data model, the first
    one by a count that is not set. *)
Definition rule_unset_all_wrong : BranchProtectionRule :=
  rule VUnset (VBool false) (VList [VStr "alice"]) (VBool true)
       (VList [VStr "bob"]) (VBool false) (VList [VStr "build"]).

(** A resolver that knows every actor and every app. *)
Definition resolver : Github :=
  {| get_actor_ids := λ actor_names,
       match actor_names with
       | VList l => Ok ((λ x, "ID_" +:+ py_str str_other x) <$> l)
       | _ => Raise TypeError
       end;
     get_app_ids := λ app_slugs,
       Ok (set_to_map (λ slug, (slug, "APP_" +:+ slug)) app_slugs) |}.

Definition tokens : list string :=
  [ "any:lint"; "build"; "circleci:test"; "circleci:deploy" ].

(** A declarative rule on its way to the provider. *)
Definition rule_data : gmap string value :=
  {[ "pattern" := VStr "main";
     "lockBranch" := VBool true;
     "pushRestrictions" := VList [VStr "team-a"];
     "requiredStatusChecks" := VList (VStr <$> tokens) ]}.

Definition rule_data_open : gmap string value :=
  <["pushRestrictions" := VList []]> rule_data.

(** A status check as the provider reports it. *)
Definition status_check (app : value) (context' : string) : gmap string value :=
  {[ "app" := app; "context" := VStr context' ]}.

Definition app_object (slug : string) : gmap string value :=
  {[ "slug" := VStr slug ]}.

(** A provider response with every field. *)
Definition response : gmap string value :=
  <["requiredStatusChecks" :=
      VList [ VDict (status_check VNone "lint");
              VDict (status_check (VDict (app_object "github-actions")) "build");
              VDict (status_check (VDict (app_object "circleci")) "test") ] ]>
    (<["pattern" := VStr "main"]>
       (<["id" := VStr "BPR_1"]>
          (list_to_map ((λ field, (field, VBool false)) <$> all_fields)))).

(** Identifiers for the round trips. *)
Definition app_ids : gmap string string :=
  {[ "github-actions" := "APP_1"; "circleci" := "APP_2"; "a" := "APP_3" ]}.

End Examples.

(** * Properties *)

(** ** The validator *)

Section Validator.

Variable str_other : value → string.
Variable parent_object : Repository.

Lemma run_bind {S A B} (m : M S A) (f : A → M S B) (s : S) :
  run (m ≫= f) s
  = match run m s with
    | (Ok a, s') => run (f a) s'
    | (Raise e, s') => (Raise e, s')
    end.
Proof. reflexivity. Qed.

Lemma report_nil st : report st [] = st.
Proof.
  destruct st as [this [fs]]. unfold report. simpl. by rewrite app_nil_r.
Qed.

Lemma report_report st fs gs : report (report st fs) gs = report st (fs ++ gs).
Proof. unfold report. simpl. by rewrite app_assoc. Qed.

Lemma run_context_add_failure st failure_type message :
  run (context_add_failure failure_type message) st
  = (Ok tt, report st [(failure_type, message)]).
Proof. reflexivity. Qed.

(** The three toggle/list checks share one guard. *)
Lemma toggle_and_nonempty_list toggle xs :
  list_field xs = true →
  toggle_and_nonempty toggle xs = Ok (toggle && nonempty_list xs).
Proof.
  destruct toggle; [|done].
  destruct xs as [| | | | |l|]; try done. by destruct l.
Qed.

Lemma run_check_approving_reviews st :
  int_field (requiredApprovingReviewCount (self st)) = true →
  run (check_approving_reviews str_other parent_object) st
  = (Ok tt, report st (finding_if (violates_approving_reviews (self st))
                         (message_approving_reviews str_other
                            (name parent_object) (pattern (self st))))).
Proof.
  intros Hty. unfold check_approving_reviews, violates_approving_reviews.
  cbn [run mbind M_bind gets].
  destruct (requiresApprovingReviews (self st)) as [| |[]| | | |];
    destruct (requiredApprovingReviewCount (self st)) as [| | |n| | |];
    try discriminate Hty; cbn; rewrite ?report_nil; try reflexivity.
  destruct (n <? 0)%Z; cbn; by rewrite ?report_nil.
Qed.

Lemma run_check_review_dismissals st :
  list_field (reviewDismissalAllowances (self st)) = true →
  run (check_review_dismissals str_other parent_object) st
  = (Ok tt, report st (finding_if (violates_review_dismissals (self st))
                         (message_review_dismissals str_other
                            (name parent_object) (pattern (self st))))).
Proof.
  intros Hty. unfold check_review_dismissals, violates_review_dismissals.
  cbn [run mbind M_bind gets lift].
  rewrite (toggle_and_nonempty_list _ _ Hty).
  destruct (_ && _); cbn; by rewrite ?report_nil.
Qed.

Lemma run_check_force_pushes st :
  list_field (bypassForcePushAllowances (self st)) = true →
  run (check_force_pushes str_other parent_object) st
  = (Ok tt, report st (finding_if (violates_force_pushes (self st))
                         (message_force_pushes str_other
                            (name parent_object) (pattern (self st))))).
Proof.
  intros Hty. unfold check_force_pushes, violates_force_pushes.
  cbn [run mbind M_bind gets lift].
  rewrite (toggle_and_nonempty_list _ _ Hty).
  destruct (_ && _); cbn; by rewrite ?report_nil.
Qed.

Lemma run_check_status_checks st :
  list_field (requiredStatusChecks (self st)) = true →
  run (check_status_checks str_other parent_object) st
  = (Ok tt, report st (finding_if (violates_status_checks (self st))
                         (message_status_checks str_other
                            (name parent_object) (pattern (self st))))).
Proof.
  intros Hty. unfold check_status_checks, violates_status_checks.
  cbn [run mbind M_bind gets lift].
  rewrite (toggle_and_nonempty_list _ _ Hty).
  destruct (_ && _); cbn; by rewrite ?report_nil.
Qed.

End Validator.

Section ValidatorClaims.

Variable str_other : value → string.
Variable parent_object : Repository.

Lemma mentions_intro before field after :
  mentions (before +:+ field +:+ after) field.
Proof. by exists before, after. Qed.

Lemma append_assoc (a b c : string) : (a +:+ b) +:+ c = a +:+ (b +:+ c).
Proof. induction a as [|x a IH]; [done | exact (f_equal (String x) IH)]. Qed.

(** C1, as amended.  When [requiresApprovingReviews] is true, the check of
    lines 50-58 reports nothing if [requiredApprovingReviewCount] is in the
    unset state or is a non-negative integer, and reports exactly one ERROR
    finding, whose message names ['requiredApprovingReviewCount'], if the
    count is null or a negative integer. *)
Theorem C1_approving_review_count st :
  requiresApprovingReviews (self st) = VBool true →
  let count := requiredApprovingReviewCount (self st) in
  let message :=
    message_approving_reviews str_other (name parent_object)
      (pattern (self st)) in
  let outcome := run (check_approving_reviews str_other parent_object) st in
  (count = VUnset → outcome = (Ok tt, st))
  ∧ (∀ n, count = VInt n → (0 ≤ n)%Z → outcome = (Ok tt, st))
  ∧ (count = VNone ∨ (∃ n, count = VInt n ∧ (n < 0)%Z) →
     outcome = (Ok tt, report st [(ERROR, message)]))
  ∧ mentions message "'requiredApprovingReviewCount'".
Proof.
  intros Htoggle count message outcome.
  assert (Hrun : int_field count = true →
                 outcome = (Ok tt, report st
                   (finding_if (violates_approving_reviews (self st)) message)))
    by apply run_check_approving_reviews.
  unfold violates_approving_reviews in Hrun. rewrite Htoggle in Hrun.
  fold count in Hrun. simpl in Hrun.
  repeat split.
  - intros Hc. rewrite Hc in Hrun. rewrite Hrun by done. apply f_equal, report_nil.
  - intros n Hc Hn. rewrite Hc in Hrun. rewrite Hrun by done.
    replace (n <? 0)%Z with false by (symmetry; apply Z.ltb_ge; lia).
    apply f_equal, report_nil.
  - intros [Hc | (n & Hc & Hn)]; rewrite Hc in Hrun; rewrite Hrun by done.
    + done.
    + by replace (n <? 0)%Z with true by (symmetry; apply Z.ltb_lt; lia).
  - unfold message, message_approving_reviews.
    change (" 'requiredApprovingReviews' enabled but 'requiredApprovingReviewCount' "
            +:+ "is not set.")
      with (" 'requiredApprovingReviews' enabled but "
            +:+ "'requiredApprovingReviewCount'" +:+ " is not set.").
    rewrite <- append_assoc. apply mentions_intro.
Qed.

Lemma run_validate st :
  typed_for_validate (self st) = true →
  let this := self st in
  let repo_name := name parent_object in
  run (validate str_other parent_object) st
  = (Ok tt,
     report st
       (finding_if (violates_approving_reviews this)
          (message_approving_reviews str_other repo_name (pattern this))
        ++ finding_if (violates_review_dismissals this)
             (message_review_dismissals str_other repo_name (pattern this))
        ++ finding_if (violates_force_pushes this)
             (message_force_pushes str_other repo_name (pattern this))
        ++ finding_if (violates_status_checks this)
             (message_status_checks str_other repo_name (pattern this)))).
Proof.
  unfold typed_for_validate. intros Hty.
  apply andb_prop in Hty as [Hty H4]. apply andb_prop in Hty as [Hty H3].
  apply andb_prop in Hty as [H1 H2].
  cbv zeta. unfold validate.
  rewrite run_bind, run_check_approving_reviews by done.
  rewrite run_bind, run_check_review_dismissals by done.
  rewrite run_bind, run_check_force_pushes by done.
  rewrite run_check_status_checks by done.
  by rewrite !report_report.
Qed.

Lemma append_inv_head (a b c : string) : a +:+ b = a +:+ c → b = c.
Proof.
  induction a as [|x a IH]; [done|]. intros H. apply IH.
  by injection H.
Qed.

Lemma reported_app message fs gs :
  reported message (fs ++ gs) = reported message fs + reported message gs.
Proof. unfold reported. by rewrite List.filter_app, length_app. Qed.

Lemma reported_finding_if message violated message' :
  reported message (finding_if violated message')
  = if violated && is_finding message (ERROR, message') then 1 else 0.
Proof.
  destruct violated; [|done]. unfold reported. simpl.
  by destruct (is_finding message (ERROR, message')).
Qed.

Lemma is_finding_same message : is_finding message (ERROR, message) = true.
Proof. unfold is_finding. simpl. by apply bool_decide_eq_true_2. Qed.

(** Two messages with the same head and different tails are different. *)
Lemma is_finding_other head tail tail' :
  tail ≠ tail' →
  is_finding (head +:+ tail) (ERROR, head +:+ tail') = false.
Proof.
  intros Hne. unfold is_finding. simpl. apply bool_decide_eq_false_2.
  intros H. apply Hne. symmetry. by apply (append_inv_head head).
Qed.

(** The findings that [validate] adds on a typed instance, counted for
    the message of one check. *)
Lemma reported_validate this (v1 v2 v3 v4 : bool) repo_name :
  let fs :=
    finding_if v1 (message_approving_reviews str_other repo_name (pattern this))
    ++ finding_if v2
         (message_review_dismissals str_other repo_name (pattern this))
    ++ finding_if v3 (message_force_pushes str_other repo_name (pattern this))
    ++ finding_if v4 (message_status_checks str_other repo_name (pattern this))
  in
  reported (message_review_dismissals str_other repo_name (pattern this)) fs
  = (if v2 then 1 else 0)
  ∧ reported (message_force_pushes str_other repo_name (pattern this)) fs
    = (if v3 then 1 else 0)
  ∧ reported (message_status_checks str_other repo_name (pattern this)) fs
    = (if v4 then 1 else 0).
Proof.
  intros fs. unfold fs. rewrite !reported_app, !reported_finding_if.
  unfold message_approving_reviews, message_review_dismissals,
    message_force_pushes, message_status_checks.
  rewrite !is_finding_same.
  rewrite !is_finding_other by (intros H; vm_compute in H; discriminate H).
  rewrite !andb_false_r, !andb_true_r.
  split_and!; destruct v2, v3, v4; reflexivity.
Qed.

(** C7.  On an instance whose count and lists hold values of their
    declared types (or are unset or null), [validate] runs to the end, and
    for each of the three toggle/list pairs the findings it adds hold the
    ERROR finding of that pair exactly once when the toggle has the stated
    value and the list is set, valid and non-empty, and not at all when
    the list is empty, unset or invalid. *)
Theorem C7_toggle_list_pairs st :
  typed_for_validate (self st) = true →
  let this := self st in
  let repo_name := name parent_object in
  ∃ fs,
    run (validate str_other parent_object) st = (Ok tt, report st fs)
    ∧ pair_rule fs restrictsReviewDismissals false reviewDismissalAllowances
        (message_review_dismissals str_other repo_name (pattern this)) this
    ∧ pair_rule fs allowsForcePushes true bypassForcePushAllowances
        (message_force_pushes str_other repo_name (pattern this)) this
    ∧ pair_rule fs requiresStatusChecks false requiredStatusChecks
        (message_status_checks str_other repo_name (pattern this)) this.
Proof.
  intros Hty this repo_name. eexists. split; [by apply run_validate|].
  destruct (reported_validate this (violates_approving_reviews this)
              (violates_review_dismissals this) (violates_force_pushes this)
              (violates_status_checks this) repo_name) as (R2 & R3 & R4).
  cbv zeta in R2, R3, R4. unfold pair_rule. fold this repo_name.
  rewrite R2, R3, R4.
  unfold violates_review_dismissals, violates_force_pushes,
    violates_status_checks.
  split_and!.
  - intros l -> -> Hne. by destruct l.
  - intros [-> | [-> | ->]]; by rewrite andb_false_r.
  - intros l -> -> Hne. by destruct l.
  - intros [-> | [-> | ->]]; by rewrite andb_false_r.
  - intros l -> -> Hne. by destruct l.
  - intros [-> | [-> | ->]]; by rewrite andb_false_r.
Qed.

Lemma appends_only_seq m1 m2 :
  appends_only m1 → appends_only m2 → appends_only (m1;; m2).
Proof.
  intros H1 H2 st. rewrite run_bind.
  destruct (H1 st) as [fs Hfs]. destruct (run m1 st) as [[[]|e] st1].
  - simpl in Hfs. subst st1. destruct (H2 (report st fs)) as [gs Hgs].
    exists (fs ++ gs). by rewrite Hgs, report_report.
  - by exists fs.
Qed.

Lemma appends_only_toggle_check toggle xs message :
  appends_only
    (bad ← lift (toggle_and_nonempty toggle xs);
     if bad : bool then context_add_failure ERROR message else mret tt).
Proof.
  intros st. cbn [run mbind M_bind lift].
  destruct (toggle_and_nonempty toggle xs) as [[]|e].
  - by exists [(ERROR, message)].
  - exists []. by rewrite report_nil.
  - exists []. by rewrite report_nil.
Qed.

Lemma appends_only_validate : appends_only (validate str_other parent_object).
Proof.
  unfold validate. repeat apply appends_only_seq.
  - intros st. unfold check_approving_reviews. cbn [run mbind M_bind gets].
    destruct (is_True _ && negb _).
    + destruct (is_None _); cbn.
      * by exists [(ERROR, message_approving_reviews str_other
                             (name parent_object) (pattern (self st)))].
      * destruct (lt_zero _) as [[]|e]; cbn;
          [by eexists [_] | exists []; by rewrite report_nil
          | exists []; by rewrite report_nil].
    + exists []. by rewrite report_nil.
  - intros st. unfold check_review_dismissals. cbn [run mbind M_bind gets].
    apply appends_only_toggle_check.
  - intros st. unfold check_force_pushes. cbn [run mbind M_bind gets].
    apply appends_only_toggle_check.
  - intros st. unfold check_status_checks. cbn [run mbind M_bind gets].
    apply appends_only_toggle_check.
Qed.

(** C9, as amended.  [validate] never changes a field of the instance and
    only appends findings to the context; on an instance whose count and
    lists hold values of their declared types (or are unset or null) it
    runs to the end and reports one finding for each of the four checks
    whose condition holds, independently of the other three, where the
    first check holds only for a count that is set: a count in the unset
    state is skipped, and so is not reported. *)
Theorem C9_validate_reads_and_reports_all st :
  let this := self st in
  let repo_name := name parent_object in
  let outcome := run (validate str_other parent_object) st in
  self outcome.2 = this
  ∧ (∃ fs, outcome.2 = report st fs)
  ∧ (typed_for_validate this = true →
     outcome
     = (Ok tt,
        report st
          (finding_if (violates_approving_reviews this)
             (message_approving_reviews str_other repo_name (pattern this))
           ++ finding_if (violates_review_dismissals this)
                (message_review_dismissals str_other repo_name (pattern this))
           ++ finding_if (violates_force_pushes this)
                (message_force_pushes str_other repo_name (pattern this))
           ++ finding_if (violates_status_checks this)
                (message_status_checks str_other repo_name (pattern this))))).
Proof.
  intros this repo_name outcome.
  destruct (appends_only_validate st) as [fs Hfs]. fold outcome in Hfs.
  repeat split.
  - by rewrite Hfs.
  - by exists fs.
  - apply run_validate.
Qed.

End ValidatorClaims.

(** C1 as stated fails: approving reviews required and the count unset,
    and the validator reports nothing. *)
Lemma C1_unset_count_not_reported :
  let st := {| self := Examples.rule_with_count VUnset;
               context := Examples.no_findings |} in
  requiresApprovingReviews (self st) = VBool true
  ∧ requiredApprovingReviewCount (self st) = VUnset
  ∧ run (validate Examples.str_other Examples.repo) st = (Ok tt, st)
  ∧ validation_failures
      (context (run (validate Examples.str_other Examples.repo) st).2) = [].
Proof. repeat split. Qed.

Lemma C1_approving_review_count_witness :
  run (check_approving_reviews Examples.str_other Examples.repo)
      {| self := Examples.rule_with_count (VInt 2);
         context := Examples.no_findings |}
  = (Ok tt, {| self := Examples.rule_with_count (VInt 2);
               context := Examples.no_findings |})
  ∧ run (check_approving_reviews Examples.str_other Examples.repo)
        {| self := Examples.rule_with_count VNone;
           context := Examples.no_findings |}
    = (Ok tt,
       {| self := Examples.rule_with_count VNone;
          context :=
            {| validation_failures :=
                 [(ERROR,
                   message_approving_reviews Examples.str_other
                     (VStr "otterdog") (VStr "main"))] |} |}).
Proof.
  split.
  - apply (proj1 (proj2 (C1_approving_review_count Examples.str_other
             Examples.repo
             {| self := Examples.rule_with_count (VInt 2);
                context := Examples.no_findings |} eq_refl)) 2%Z eq_refl).
    lia.
  - apply (proj1 (proj2 (proj2 (C1_approving_review_count Examples.str_other
             Examples.repo
             {| self := Examples.rule_with_count VNone;
                context := Examples.no_findings |} eq_refl)))).
    by left.
Defined.

Lemma C7_toggle_list_pairs_witness :
  (∃ fs,
     run (validate Examples.str_other Examples.repo)
         {| self := Examples.rule_all_wrong;
            context := Examples.no_findings |}
     = (Ok tt, {| self := Examples.rule_all_wrong;
                  context := {| validation_failures := fs |} |})
     ∧ reported (message_review_dismissals Examples.str_other
                   (VStr "otterdog") (VStr "main")) fs = 1
     ∧ reported (message_force_pushes Examples.str_other
                   (VStr "otterdog") (VStr "main")) fs = 1
     ∧ reported (message_status_checks Examples.str_other
                   (VStr "otterdog") (VStr "main")) fs = 1)
  ∧ (∃ fs,
       run (validate Examples.str_other Examples.repo)
           {| self := Examples.rule_with_count (VInt 1);
              context := Examples.no_findings |}
       = (Ok tt, {| self := Examples.rule_with_count (VInt 1);
                    context := {| validation_failures := fs |} |})
       ∧ reported (message_review_dismissals Examples.str_other
                     (VStr "otterdog") (VStr "main")) fs = 0
       ∧ reported (message_force_pushes Examples.str_other
                     (VStr "otterdog") (VStr "main")) fs = 0
       ∧ reported (message_status_checks Examples.str_other
                     (VStr "otterdog") (VStr "main")) fs = 0).
Proof.
  split.
  - destruct (C7_toggle_list_pairs Examples.str_other Examples.repo
                {| self := Examples.rule_all_wrong;
                   context := Examples.no_findings |} eq_refl)
      as (fs & Hrun & [P2 _] & [P3 _] & [P4 _]).
    exists fs. split_and!.
    + exact Hrun.
    + by apply (P2 [VStr "alice"]).
    + by apply (P3 [VStr "bob"]).
    + by apply (P4 [VStr "build"]).
  - destruct (C7_toggle_list_pairs Examples.str_other Examples.repo
                {| self := Examples.rule_with_count (VInt 1);
                   context := Examples.no_findings |} eq_refl)
      as (fs & Hrun & [_ P2] & [_ P3] & [_ P4]).
    exists fs. split_and!.
    + exact Hrun.
    + apply P2. by left.
    + apply P3. by left.
    + apply P4. by left.
Defined.

(** C9 as stated fails: the count is not set, which breaks the first
    invariant, and the three lists break the other three; [validate]
    reports three findings, none of them for the count. *)
Lemma C9_unset_count_invariant_not_reported :
  let st := {| self := Examples.rule_unset_all_wrong;
               context := Examples.no_findings |} in
  let outcome := run (validate Examples.str_other Examples.repo) st in
  typed_for_validate (self st) = true
  ∧ breaks_invariant_1 (self st) = true
  ∧ violates_review_dismissals (self st) = true
  ∧ violates_force_pushes (self st) = true
  ∧ violates_status_checks (self st) = true
  ∧ outcome.1 = Ok tt
  ∧ length (validation_failures (context outcome.2)) = 3
  ∧ reported (message_approving_reviews Examples.str_other
                (VStr "otterdog") (VStr "main"))
      (validation_failures (context outcome.2)) = 0.
Proof. by split_and!. Qed.

Lemma C9_validate_reads_and_reports_all_witness :
  let st := {| self := Examples.rule_all_wrong;
               context := Examples.no_findings |} in
  typed_for_validate (self st) = true
  ∧ (run (validate Examples.str_other Examples.repo) st).1 = Ok tt
  ∧ self (run (validate Examples.str_other Examples.repo) st).2
    = Examples.rule_all_wrong
  ∧ length (validation_failures
              (context (run (validate Examples.str_other Examples.repo) st).2))
    = 4.
Proof.
  intros st. split; [reflexivity|].
  pose proof (proj2 (proj2 (C9_validate_reads_and_reports_all
                Examples.str_other Examples.repo st)) eq_refl) as Hrun.
  cbv zeta in Hrun. rewrite Hrun. repeat split.
Defined.

(** ** Ordered dictionaries and the projection engine *)

Section Dictionaries.

Context {A : Type}.
Implicit Types (m : ODict.odict A) (g : gmap string A) (k : string).

Lemma get_None k m : k ∉ m.*1 → ODict.get k m = None.
Proof.
  induction m as [|[k' a] m IH]; [done|]. simpl. intros Hk.
  apply not_elem_of_cons in Hk as [Hne Hk]. case_decide; [congruence | auto].
Qed.

Lemma get_Some_key k a m : ODict.get k m = Some a → k ∈ m.*1.
Proof.
  induction m as [|[k' a'] m IH]; [done|]. simpl.
  case_decide; [subst; intros _; apply list_elem_of_here|].
  intros. apply list_elem_of_further. auto.
Qed.

Lemma get_fmap_key (f : string → A) (ks : list string) k :
  ODict.get k ((λ k, (k, f k)) <$> ks)
  = if decide (k ∈ ks) then Some (f k) else None.
Proof.
  induction ks as [|k' ks IH]; cbn [fmap list_fmap ODict.get].
  - destruct (decide (k ∈ [])) as [Hin|]; [by apply elem_of_nil in Hin | done].
  - destruct (decide (k' = k)) as [->|Hne].
    + destruct (decide (k ∈ k :: ks)) as [|Hin]; [done|].
      destruct Hin. apply list_elem_of_here.
    + rewrite IH. destruct (decide (k ∈ ks)), (decide (k ∈ k' :: ks));
        try done; set_solver.
Qed.

Lemma has_key_true k m : ODict.has_key k m = true ↔ k ∈ m.*1.
Proof.
  unfold ODict.has_key. induction m as [|[k' a] m IH]; simpl.
  - split; [done | by intros ?%elem_of_nil].
  - rewrite orb_true_iff, IH, elem_of_cons, bool_decide_eq_true. simpl.
    naive_solver.
Qed.

Lemma keys_remove k k' m : k' ∈ (ODict.remove k m).*1 → k' ∈ m.*1.
Proof.
  induction m as [|[k0 a] m IH]; [done|]. cbn [ODict.remove].
  destruct (decide (k0 = k)); rewrite !fmap_cons, ?elem_of_cons; cbn [fst];
    [auto | intros [?|?]; auto].
Qed.

Lemma NoDup_remove k m : NoDup m.*1 → NoDup (ODict.remove k m).*1.
Proof.
  induction m as [|[k0 a] m IH]; [done|]. rewrite fmap_cons, NoDup_cons.
  intros [Hk0 Hnd]. cbn [ODict.remove fst] in *.
  destruct (decide (k0 = k)); [auto|].
  rewrite fmap_cons, NoDup_cons. split; [|auto].
  intros Hin. apply Hk0. by apply keys_remove in Hin.
Qed.

Lemma get_remove k k' m :
  ODict.get k' (ODict.remove k m)
  = if decide (k' = k) then None else ODict.get k' m.
Proof.
  induction m as [|[k0 a] m IH].
  - by destruct (decide (k' = k)).
  - cbn [ODict.remove ODict.get]. destruct (decide (k0 = k)) as [->|H0].
    + rewrite IH. destruct (decide (k = k')), (decide (k' = k)); congruence.
    + cbn [ODict.get]. rewrite IH.
      destruct (decide (k0 = k')), (decide (k' = k)); congruence.
Qed.

Lemma agrees_list_to_map m : NoDup m.*1 → agrees m (list_to_map m).
Proof.
  intros Hnd. split; [done|]. intros k. clear Hnd.
  induction m as [|[k' a] m IH]; simpl; [by rewrite lookup_empty|].
  case_decide.
  - subst. by rewrite lookup_insert_eq.
  - by rewrite lookup_insert_ne.
Qed.

Lemma agrees_pop k m g :
  agrees m g → is_Some (g !! k) →
  ∃ m', ODict.pop k m = Ok m' ∧ agrees m' (delete k g).
Proof.
  intros [Hnd Hget] [a Ha]. unfold ODict.pop.
  assert (Hk : ODict.has_key k m = true).
  { apply has_key_true. apply (get_Some_key _ a). by rewrite Hget. }
  rewrite Hk. eexists; split; [done|]. split.
  - by apply NoDup_remove.
  - intros k'. rewrite get_remove, Hget. case_decide.
    + subst. by rewrite lookup_delete_eq.
    + by rewrite lookup_delete_ne.
Qed.

Lemma pop_missing k m g :
  agrees m g → g !! k = None → ODict.pop k m = Raise (KeyError k).
Proof.
  intros [Hnd Hget] Hk. unfold ODict.pop.
  destruct (ODict.has_key k m) eqn:Hhas; [|done].
  apply has_key_true in Hhas. exfalso.
  assert (is_Some (ODict.get k m)) as [a Ha].
  { clear Hget Hnd. induction m as [|[k' a] m IH]; [by apply elem_of_nil in Hhas|].
    simpl. case_decide; [by eexists|]. apply IH.
    apply elem_of_cons in Hhas as [?|?]; [simpl in *; congruence | done]. }
  rewrite Hget in Ha. congruence.
Qed.

Lemma keys_setitem k a m :
  (ODict.setitem k a m).*1 = if decide (k ∈ m.*1) then m.*1 else m.*1 ++ [k].
Proof.
  induction m as [|[k' a'] m IH]; cbn [fmap list_fmap ODict.setitem fst].
  - destruct (decide (k ∈ [])) as [Hin|]; [by apply elem_of_nil in Hin | done].
  - destruct (decide (k' = k)) as [->|Hne]; cbn [fmap list_fmap fst].
    + destruct (decide (k ∈ k :: m.*1)) as [|Hin]; [done|].
      destruct Hin. apply list_elem_of_here.
    + rewrite IH. destruct (decide (k ∈ m.*1)), (decide (k ∈ k' :: m.*1));
        try done; set_solver.
Qed.

Lemma get_setitem k a k' m :
  ODict.get k' (ODict.setitem k a m)
  = if decide (k = k') then Some a else ODict.get k' m.
Proof.
  induction m as [|[k0 a0] m IH]; cbn [ODict.setitem ODict.get].
  - by destruct (decide (k = k')).
  - destruct (decide (k0 = k)) as [->|H0]; cbn [ODict.get].
    + by destruct (decide (k = k')).
    + rewrite IH. destruct (decide (k0 = k')), (decide (k = k')); congruence.
Qed.

Lemma agrees_setitem k a m g :
  agrees m g → agrees (ODict.setitem k a m) (<[k := a]> g).
Proof.
  intros [Hnd Hget]. split.
  - rewrite keys_setitem. case_decide; [done|].
    apply NoDup_app. split_and!; [done| |apply NoDup_singleton].
    intros x Hx ->%list_elem_of_singleton. done.
  - intros k'. rewrite get_setitem, Hget. case_decide.
    + subst. by rewrite lookup_insert_eq.
    + by rewrite lookup_insert_ne.
Qed.

End Dictionaries.

Section Bend.

Import JsonBender.
Implicit Types (m : ODict.odict bender) (data res : gmap string value).

Lemma bend_loop_ok m data res :
  NoDup m.*1 →
  (∀ k b, ODict.get k m = Some b → ∃ v, execute b data = Ok v) →
  ∃ out, bend_loop m data res = Ok out
         ∧ ∀ k, out !! k = match ODict.get k m with
                           | Some b => ok_value (execute b data)
                           | None => res !! k
                           end.
Proof.
  revert res. induction m as [|[k0 b0] m IH]; intros res Hnd Hex.
  - by exists res.
  - rewrite fmap_cons in Hnd. cbn [fst] in Hnd.
    apply NoDup_cons in Hnd as [Hk0 Hnd]. simpl.
    destruct (Hex k0 b0) as [v0 Hv0]; [simpl; by case_decide|].
    rewrite Hv0.
    destruct (IH (<[k0 := v0]> res) Hnd) as (out & Hout & Hlook).
    { intros k b Hkb. apply (Hex k). simpl. case_decide; [|done].
      subst. by rewrite (get_None _ _ Hk0) in Hkb. }
    exists out. split; [done|]. intros k. rewrite Hlook. case_decide.
    + subst. by rewrite (get_None _ _ Hk0), lookup_insert_eq, Hv0.
    + destruct (ODict.get k m); [done|]. by rewrite lookup_insert_ne.
Qed.

Lemma bend_agrees m g data :
  agrees m g →
  (∀ k b, g !! k = Some b → ∃ v, execute b data = Ok v) →
  ∃ out, bend m data = Ok out
         ∧ ∀ k, out !! k = g !! k ≫= λ b, ok_value (execute b data).
Proof.
  intros [Hnd Hget] Hex.
  destruct (bend_loop_ok m data ∅ Hnd) as (out & Hout & Hlook).
  { intros k b Hkb. apply (Hex k). by rewrite <- Hget. }
  exists out. split; [done|]. intros k. rewrite Hlook, Hget.
  by destruct (g !! k).
Qed.

(** The first key that is missing from the source stops the conversion:
    a mapping of required lookups, the last of which may be piped into a
    transform. *)
Lemma bend_loop_missing (ks : list string) (last : string * bender)
    data res k :
  reads_own_key last → k ∈ ks ++ [last.1] → data !! k = None →
  ∃ k', k' ∈ ks ++ [last.1] ∧ data !! k' = None
        ∧ bend_loop (((λ k, (k, S k)) <$> ks) ++ [last]) data res
          = Raise (BendingException k' (KeyError k')).
Proof.
  revert res. induction ks as [|k0 ks IH]; intros res Hlast Hk Hnone.
  - apply list_elem_of_singleton in Hk. subst k. exists last.1.
    split_and!; [apply list_elem_of_here | done |].
    destruct last as [kl bl]. unfold reads_own_key in Hlast. simpl in *.
    destruct Hlast as [-> | [f ->]]; simpl; by rewrite Hnone.
  - simpl. destruct (data !! k0) as [v0|] eqn:Hk0.
    + assert (Hk' : k ∈ ks ++ [last.1]).
      { apply elem_of_cons in Hk as [->|?]; [congruence | done]. }
      destruct (IH (<[k0 := v0]> res) Hlast Hk' Hnone) as (k' & ? & ? & ?).
      exists k'. split_and!; [by apply list_elem_of_further | done | done].
    + exists k0. split_and!; [apply list_elem_of_here | done | done].
Qed.

End Bend.

(** ** The two constructors *)

(** Membership of a literal field name in [all_fields]. *)
Ltac in_fields :=
  unfold all_fields;
  repeat first [apply list_elem_of_here | apply list_elem_of_further].

Section Constructors.

Import JsonBender.
Variable str_other : value → string.

Lemma keys_fmap_key {A} (f : string → A) (ks : list string) :
  ((λ k, (k, f k)) <$> ks).*1 = ks.
Proof. induction ks as [|k ks IH]; [done|]. rewrite !fmap_cons. by rewrite IH. Qed.

Lemma all_fields_NoDup : NoDup all_fields.
Proof. apply (bool_decide_unpack (NoDup all_fields)). by vm_compute. Qed.

(** The constructor accepts exactly the keyword arguments that name the
    declared fields, and stores each under its field. *)
Lemma cls_ok (kwargs : gmap string value) :
  (∀ k, k ∈ all_fields ↔ is_Some (kwargs !! k)) →
  ∃ inst, cls kwargs = Ok inst ∧ ∀ k, getattr inst k = kwargs !! k.
Proof.
  intros Hdom. unfold cls. rewrite bool_decide_eq_true_2.
  2: { intros k Hk. apply elem_of_list_to_set, Hdom. by apply elem_of_dom. }
  repeat match goal with
         | |- context [arg kwargs ?k] =>
             let v := fresh "v" in
             let E := fresh "E" in
             destruct (proj1 (Hdom k)) as [v E]; [in_fields|];
             unfold arg at 1; rewrite E; cbn [mbind result_bind]
         end.
  eexists. split; [reflexivity|]. intros k.
  cbv [getattr attributes ODict.get id_ pattern allowsDeletions
       allowsForcePushes dismissesStaleReviews isAdminEnforced
       lockAllowsFetchAndMerge lockBranch bypassForcePushAllowances
       bypassPullRequestAllowances pushRestrictions requireLastPushApproval
       requiredApprovingReviewCount requiresApprovingReviews
       requiresCodeOwnerReviews requiresCommitSignatures
       requiresConversationResolution requiresLinearHistory
       requiresStatusChecks requiresStrictStatusChecks
       restrictsReviewDismissals reviewDismissalAllowances
       requiredStatusChecks].
  repeat match goal with
         | |- context [decide (?f = k)] =>
             destruct (decide (f = k)) as [<-|?]; [by symmetry|]
         end.
  destruct (kwargs !! k) eqn:Ek; [|done]. exfalso.
  assert (Hk : k ∈ all_fields) by (apply Hdom; eauto).
  apply list_elem_of_In in Hk. simpl in Hk. intuition congruence.
Qed.

(** [from_model] never fails, and a field holds what the raw configuration
    gives for it, or the unset sentinel when the key is not there. *)
Lemma from_model_ok data :
  ∃ inst, from_model data = Ok inst
          ∧ ∀ k, k ∈ all_fields →
                 getattr inst k = Some (default UNSET (data !! k)).
Proof.
  unfold from_model, bend.
  set (m := (λ k, (k, OptionalS k UNSET)) <$> all_fields).
  destruct (bend_loop_ok m data ∅) as (kwargs & Hbend & Hlook).
  { unfold m. rewrite keys_fmap_key. apply all_fields_NoDup. }
  { intros k b. unfold m. rewrite get_fmap_key. case_decide; [|done].
    intros [= <-]. simpl. destruct (data !! k); eauto. }
  rewrite Hbend. cbn [mbind result_bind].
  assert (Hk : ∀ k, kwargs !! k
                    = if decide (k ∈ all_fields)
                      then Some (default UNSET (data !! k)) else None).
  { intros k. rewrite Hlook. unfold m. rewrite get_fmap_key.
    case_decide; [|done]. simpl. by destruct (data !! k). }
  destruct (cls_ok kwargs) as (inst & Hinst & Hget).
  { intros k. rewrite Hk. case_decide; split; try done; by intros [? ?]. }
  exists inst. split; [done|]. intros k Hin. rewrite Hget, Hk.
  by case_decide.
Qed.

Lemma traverse_Forall2 {A B} (f : A → result B) xs ys :
  Forall2 (λ x y, f x = Ok y) xs ys → traverse f xs = Ok ys.
Proof.
  induction 1 as [|x y xs ys Hxy _ IH]; [done|]. simpl.
  rewrite Hxy. cbn [mbind result_bind]. by rewrite IH.
Qed.

(** [from_provider] on a response that has every field, and whose status
    checks all decode. *)
Lemma from_provider_ok data xs tokens :
  (∀ k, k ∈ all_fields → is_Some (data !! k)) →
  data !! "requiredStatusChecks" = Some (VList xs) →
  Forall2 (λ x token, transform_app str_other x = Ok token) xs tokens →
  ∃ inst, from_provider str_other data = Ok inst
          ∧ getattr inst "requiredStatusChecks"
            = Some (VList (VStr <$> tokens))
          ∧ ∀ k, k ∈ all_fields → k ≠ "requiredStatusChecks" →
                 getattr inst k = data !! k.
Proof.
  intros Hall Hchecks Hdecode. unfold from_provider, bend.
  set (decode := Pipe _ _).
  set (m := ODict.setitem _ _ _).
  assert (Hget : ∀ k, ODict.get k m
                      = if decide ("requiredStatusChecks" = k) then Some decode
                        else if decide (k ∈ all_fields) then Some (S k)
                             else None).
  { intros k. unfold m. by rewrite get_setitem, get_fmap_key. }
  assert (Hdec : execute decode data = Ok (VList (VStr <$> tokens))).
  { unfold decode. simpl. rewrite Hchecks. cbn [mbind result_bind].
    unfold Forall. cbn [iter mbind result_bind].
    rewrite (traverse_Forall2 _ xs (VStr <$> tokens)); [done|].
    apply Forall2_fmap_r. eapply Forall2_impl; [exact Hdecode|].
    intros x token Hx. simpl. by rewrite Hx. }
  destruct (bend_loop_ok m data ∅) as (kwargs & Hbend & Hlook).
  { unfold m. rewrite keys_setitem, keys_fmap_key.
    case_decide as Hin; [apply all_fields_NoDup|]. destruct Hin. in_fields. }
  { intros k b. rewrite Hget. case_decide.
    - intros [= <-]. eauto.
    - case_decide; [|done]. intros [= <-]. simpl.
      destruct (Hall k) as [v ->]; eauto. }
  rewrite Hbend. cbn [mbind result_bind].
  assert (Hk : ∀ k, kwargs !! k
                    = if decide ("requiredStatusChecks" = k)
                      then Some (VList (VStr <$> tokens))
                      else if decide (k ∈ all_fields) then data !! k
                           else None).
  { intros k. rewrite Hlook, Hget. case_decide; [by rewrite Hdec|].
    case_decide; [|done]. simpl. by destruct (data !! k). }
  destruct (cls_ok kwargs) as (inst & Hinst & Hattr).
  { intros k. rewrite Hk. case_decide.
    - subst k. split; [by eauto | intros _; in_fields].
    - case_decide; split; try done; first [by auto | by intros [? ?]]. }
  exists inst. split_and!; [done | |].
  - rewrite Hattr, Hk. by case_decide.
  - intros k Hin Hne. rewrite Hattr, Hk.
    case_decide; [congruence|]. by case_decide.
Qed.

(** The three cases of [transform_app]. *)
Lemma transform_app_absent (d : gmap string value) (c : string) :
  d !! "app" = Some VNone → d !! "context" = Some (VStr c) →
  transform_app str_other (VDict d) = Ok ("any:" +:+ c).
Proof. intros Happ Hc. unfold transform_app. cbn [subscript]. by rewrite Happ, Hc. Qed.

Lemma transform_app_default (d app : gmap string value) (c : string) :
  d !! "app" = Some (VDict app) →
  app !! "slug" = Some (VStr "github-actions") →
  d !! "context" = Some (VStr c) →
  transform_app str_other (VDict d) = Ok c.
Proof.
  intros Happ Hslug Hc. unfold transform_app. cbn [subscript].
  rewrite Happ, Hc. cbn. by rewrite Hslug.
Qed.

Lemma transform_app_other (d app : gmap string value) (s c : string) :
  d !! "app" = Some (VDict app) → app !! "slug" = Some (VStr s) →
  s ≠ "github-actions" → d !! "context" = Some (VStr c) →
  transform_app str_other (VDict d) = Ok (s +:+ ":" +:+ c).
Proof.
  intros Happ Hslug Hne Hc. unfold transform_app. cbn [subscript].
  rewrite Happ, Hc. cbn. rewrite Hslug. cbn.
  rewrite bool_decide_eq_false_2 by done. cbn [mbind result_bind].
  by rewrite append_assoc.
Qed.

(** C2.  A provider status check with context [c] decodes to one token:
    ["any:" + c] when the app is absent, the bare [c] when the app has the
    slug "github-actions", and [s + ":" + c] when the app has any other
    slug [s]; [from_provider] stores the tokens of a response, in order, in
    [requiredStatusChecks]. *)
Theorem C2_decode_status_check (d : gmap string value) (c : string) :
  d !! "context" = Some (VStr c) →
  (d !! "app" = Some VNone →
   transform_app str_other (VDict d) = Ok ("any:" +:+ c))
  ∧ (∀ app, d !! "app" = Some (VDict app) →
            app !! "slug" = Some (VStr "github-actions") →
            transform_app str_other (VDict d) = Ok c)
  ∧ (∀ app s, d !! "app" = Some (VDict app) →
              app !! "slug" = Some (VStr s) → s ≠ "github-actions" →
              transform_app str_other (VDict d) = Ok (s +:+ ":" +:+ c))
  ∧ (∀ data xs tokens,
       (∀ k, k ∈ all_fields → is_Some (data !! k)) →
       data !! "requiredStatusChecks" = Some (VList xs) →
       Forall2 (λ x token, transform_app str_other x = Ok token) xs tokens →
       ∃ inst, from_provider str_other data = Ok inst
               ∧ requiredStatusChecks inst = VList (VStr <$> tokens)).
Proof.
  intros Hc. split_and!.
  - intros Happ. by apply transform_app_absent.
  - intros app Happ Hslug. by apply (transform_app_default d app).
  - intros app s Happ Hslug Hne. by apply (transform_app_other d app).
  - intros data xs tokens Hall Hchecks Hdecode.
    destruct (from_provider_ok data xs tokens Hall Hchecks Hdecode)
      as (inst & Hinst & Hattr & _).
    exists inst. split; [done|]. by injection Hattr.
Qed.

(** C8.  A field whose key is missing: [from_model] still succeeds and the
    field holds the unset sentinel (neither [False] nor [None]), while
    [from_provider] raises the engine's missing-field failure, naming a
    declared field the response lacks, and hands it to its caller. *)
Theorem C8_missing_key (data : gmap string value) (field : string) :
  field ∈ all_fields → data !! field = None →
  (∃ inst, from_model data = Ok inst
           ∧ getattr inst field = Some UNSET
           ∧ getattr inst field ≠ Some (VBool false)
           ∧ getattr inst field ≠ Some VNone)
  ∧ (∃ k, k ∈ all_fields ∧ data !! k = None
          ∧ from_provider str_other data
            = Raise (BendingException k (KeyError k))).
Proof.
  intros Hin Hnone. split.
  - destruct (from_model_ok data) as (inst & Hinst & Hattr).
    exists inst. rewrite (Hattr field Hin), Hnone. by split_and!.
  - unfold from_provider, bend.
    set (decode := Pipe _ _).
    change (ODict.setitem "requiredStatusChecks" decode
              ((λ k, (k, S k)) <$> all_fields))
      with (((λ k, (k, S k)) <$> take 22 all_fields)
            ++ [("requiredStatusChecks", decode)]).
    destruct (bend_loop_missing (take 22 all_fields)
                ("requiredStatusChecks", decode) data ∅ field)
      as (k & Hk & Hkn & Hraise); [by right; eexists | done | done |].
    exists k. split_and!; [done | done |]. by rewrite Hraise.
Qed.

End Constructors.

(** ** The status-check codec *)

Section Codec.

Implicit Types (s l r token : string) (c : ascii).

Lemma split_first_None c s : split_first c s = None ↔ str_contains c s = false.
Proof.
  induction s as [|c' s IH]; [done|]. simpl.
  destruct (Ascii.eqb c' c); [done|].
  destruct (split_first c s) as [[l r]|]; [|tauto].
  split; [done|]. intros H. apply IH in H. done.
Qed.

Lemma split_first_Some c s l r :
  split_first c s = Some (l, r)
  ↔ s = l +:+ String c r ∧ str_contains c l = false.
Proof.
  revert l. induction s as [|c' s IH]; intros l.
  - split; [done|]. intros [H _]. by destruct l.
  - simpl. destruct (Ascii.eqb c' c) eqn:Hc.
    + apply Ascii.eqb_eq in Hc. subst c'. split.
      * by intros [= <- <-].
      * intros [H Hl]. destruct l as [|x l].
        -- simpl in H. by injection H as <-.
        -- simpl in H, Hl. injection H as <- _.
           by rewrite Ascii.eqb_refl in Hl.
    + destruct (split_first c s) as [[l' r']|] eqn:Hs.
      * split.
        -- intros [= <- <-]. simpl. rewrite Hc.
           destruct (proj1 (IH l') eq_refl) as [-> Hl']. done.
        -- intros [H Hl]. destruct l as [|x l]; simpl in H, Hl.
           ++ injection H as -> _. by rewrite Ascii.eqb_refl in Hc.
           ++ injection H as <- H. rewrite Hc in Hl.
              assert (Some (l', r') = Some (l, r)) as [= -> ->]
                by (by apply IH). done.
      * split; [done|]. intros [H Hl]. destruct l as [|x l]; simpl in H, Hl.
        -- injection H as -> _. by rewrite Ascii.eqb_refl in Hc.
        -- injection H as <- H. rewrite Hc in Hl.
           assert (None = Some (l, r)) by (by apply IH). done.
Qed.

(** A token with a colon-free slug in front of a colon splits there. *)
Lemma token_split slug context' :
  str_contains colon slug = false →
  split_first colon (slug +:+ ":" +:+ context') = Some (slug, context').
Proof. intros H. by apply split_first_Some. Qed.

Lemma token_split_any context' :
  split_first colon ("any:" +:+ context') = Some ("any", context').
Proof. exact (token_split "any" context' eq_refl). Qed.

Lemma str_contains_split token :
  str_contains colon token = true → is_Some (split_first colon token).
Proof.
  intros H. destruct (split_first colon token) eqn:Hs; [by eexists|].
  apply split_first_None in Hs. congruence.
Qed.

(** One step of the collecting loop on a token. *)
Lemma collect_app_slug_token (app_slugs : gset string) token :
  collect_app_slug app_slugs (VStr token)
  = Ok (if bool_decide (token_slug token = "any") then app_slugs
        else {[ token_slug token ]} ∪ app_slugs).
Proof.
  unfold collect_app_slug, token_slug. cbn [contains_colon re_split_colon_1].
  cbn [mbind result_bind].
  destruct (split_first colon token) as [[l r]|] eqn:Hs.
  - destruct (str_contains colon token) eqn:Hc.
    + cbn. by destruct (decide (l = "any")) as [->|?];
        [rewrite bool_decide_eq_false_2, bool_decide_eq_true_2 by auto
        |rewrite bool_decide_eq_true_2, bool_decide_eq_false_2 by auto].
    + apply split_first_None in Hc. congruence.
  - apply split_first_None in Hs. rewrite Hs. done.
Qed.

Lemma referenced_slugs_cons token tokens :
  referenced_slugs (token :: tokens)
  = (if bool_decide (token_slug token = "any") then ∅
     else {[ token_slug token ]}) ∪ referenced_slugs tokens.
Proof.
  unfold referenced_slugs. rewrite fmap_cons. cbn [list_to_set].
  case_bool_decide as H; [rewrite H|]; set_solver.
Qed.

Lemma for_each_collect (app_slugs : gset string) tokens :
  for_each collect_app_slug (VStr <$> tokens) app_slugs
  = Ok (app_slugs ∪ referenced_slugs tokens).
Proof.
  revert app_slugs. induction tokens as [|token tokens IH]; intros app_slugs.
  - simpl. f_equal. unfold referenced_slugs. set_solver.
  - rewrite fmap_cons. cbn [for_each]. rewrite collect_app_slug_token.
    cbn [mbind result_bind]. rewrite IH, referenced_slugs_cons. f_equal.
    case_bool_decide; set_solver.
Qed.

(** The collecting loop never adds the sentinel, whatever the checks. *)
Lemma for_each_collect_no_any checks (app_slugs slugs : gset string) :
  "any" ∉ app_slugs →
  for_each collect_app_slug checks app_slugs = Ok slugs → "any" ∉ slugs.
Proof.
  revert app_slugs. induction checks as [|check checks IH]; intros app_slugs Hany.
  - by intros [= <-].
  - cbn [for_each]. destruct (collect_app_slug app_slugs check) as [acc|e] eqn:Hstep;
      [|done]. cbn [mbind result_bind]. apply IH.
    revert Hstep. unfold collect_app_slug.
    destruct (contains_colon check) as [[]|]; cbn [mbind result_bind]; [| |done].
    + destruct (re_split_colon_1 check) as [parts|]; cbn [mbind result_bind];
        [|done].
      destruct (unpack2 parts) as [[slug ?]|]; cbn [mbind result_bind]; [|done].
      case_bool_decide; intros [= <-]; set_solver.
    + intros [= <-]. set_solver.
Qed.

(** One step of the encoding loop on a token. *)
Lemma transform_check_token app_ids transformed_checks token :
  transform_check app_ids transformed_checks (VStr token)
  = match encode app_ids token with
    | Some entry => Ok (transformed_checks ++ [entry])
    | None => Raise (KeyError (token_slug token))
    end.
Proof.
  unfold transform_check, encode, token_slug, token_context.
  cbn [contains_colon re_split_colon_1 mbind result_bind].
  destruct (split_first colon token) as [[l r]|] eqn:Hs.
  - destruct (str_contains colon token) eqn:Hc.
    + cbn. case_bool_decide; [done|]. by destruct (app_ids !! l).
    + apply split_first_None in Hc. congruence.
  - apply split_first_None in Hs. rewrite Hs. cbn.
    by destruct (app_ids !! "github-actions").
Qed.

Lemma for_each_transform app_ids tokens entries transformed_checks :
  Forall2 (λ token entry, encode app_ids token = Some entry) tokens entries →
  for_each (transform_check app_ids) (VStr <$> tokens) transformed_checks
  = Ok (transformed_checks ++ entries).
Proof.
  intros H. revert transformed_checks.
  induction H as [|token entry tokens entries Henc _ IH]; intros acc.
  - simpl. by rewrite app_nil_r.
  - rewrite fmap_cons. cbn [for_each]. rewrite transform_check_token, Henc.
    cbn [mbind result_bind]. rewrite IH. by rewrite <- app_assoc.
Qed.

(** Identifiers for all referenced slugs are enough to encode the list. *)
Lemma encode_all app_ids tokens :
  (∀ slug, slug ∈ referenced_slugs tokens → is_Some (app_ids !! slug)) →
  ∃ entries,
    Forall2 (λ token entry, encode app_ids token = Some entry) tokens entries.
Proof.
  induction tokens as [|token tokens IH]; intros Hcover.
  - by exists [].
  - destruct IH as [entries Hentries].
    { intros slug Hslug. apply Hcover. rewrite referenced_slugs_cons.
      set_solver. }
    assert (∃ entry, encode app_ids token = Some entry) as [entry Hentry].
    { unfold encode. case_bool_decide as Hany; [by eexists|].
      destruct (Hcover (token_slug token)) as [app_id ->]; [|by eexists].
      rewrite referenced_slugs_cons. rewrite bool_decide_eq_false_2 by done.
      set_solver. }
    exists (entry :: entries). by constructor.
Qed.

End Codec.

(** ** The wire payload *)

Section ToProvider.

Import JsonBender.
Variable provider : Github.
Variable data : gmap string value.
Implicit Types (m : ODict.odict bender) (g : gmap string bender).
Implicit Types (log : list call) (k field target : string).

Lemma run_ret {S A} (a : A) (s : S) : run (mret a) s = (Ok a, s).
Proof. reflexivity. Qed.

Lemma run_lift {S A} (r : result A) (s : S) : run (lift r) s = (r, s).
Proof. reflexivity. Qed.

Lemma bind_Ok {A B} (a : A) (f : A → result B) : Ok a ≫= f = f a.
Proof. reflexivity. Qed.

Lemma flag_nonempty {A} (xs : list A) :
  (if 0 <? length xs then true else false) = bool_decide (xs ≠ []).
Proof. by destruct xs. Qed.

Lemma provider_fields_NoDup : NoDup provider_fields.
Proof. apply NoDup_filter, all_fields_NoDup. Qed.

Lemma initial_mapping_lookup k :
  initial_mapping data !! k
  = if decide (k ∈ provider_fields
               ∧ is_unset (default UNSET (data !! k)) = false)
    then Some (S k) else None.
Proof.
  unfold initial_mapping.
  set (ks := filter _ provider_fields).
  assert (Hag : agrees ((λ field, (field, S field)) <$> ks)
                  (list_to_map ((λ field, (field, S field)) <$> ks))).
  { apply agrees_list_to_map. rewrite keys_fmap_key.
    apply NoDup_filter, provider_fields_NoDup. }
  destruct Hag as [_ Hget]. rewrite <- Hget, get_fmap_key.
  destruct (decide (k ∈ ks)) as [Hin|Hin],
    (decide (k ∈ provider_fields
             ∧ is_unset (default UNSET (data !! k)) = false)) as [H|H];
    try done.
  - destruct H. apply list_elem_of_filter in Hin. tauto.
  - destruct Hin. apply list_elem_of_filter. tauto.
Qed.

Lemma agrees_initial :
  agrees ((λ field, (field, S field))
            <$> filter (λ field, is_unset (default UNSET (data !! field)) = false)
                  provider_fields)
         (initial_mapping data).
Proof.
  apply agrees_list_to_map. rewrite keys_fmap_key.
  apply NoDup_filter, provider_fields_NoDup.
Qed.

Lemma evaluable_initial : evaluable data (initial_mapping data).
Proof.
  intros k b. rewrite initial_mapping_lookup. case_decide as H; [|done].
  intros [= <-]. left. split; [done|]. destruct H as [_ H].
  destruct (data !! k); [by eexists | done].
Qed.

Lemma evaluable_delete k g : evaluable data g → evaluable data (delete k g).
Proof. intros H k' b [_ Hb]%lookup_delete_Some. by apply H. Qed.

Lemma evaluable_insert_K k v g :
  evaluable data g → evaluable data (<[k := K v]> g).
Proof.
  intros H k' b [[_ <-]|[_ Hb]]%lookup_insert_Some; [right; by eexists|].
  by apply H.
Qed.

Lemma evaluable_actors field target g :
  evaluable data g →
  evaluable data (actors_mapping provider data field target g).
Proof.
  intros H. unfold actors_mapping.
  repeat case_match;
    auto using evaluable_delete, evaluable_insert_K.
Qed.

Lemma evaluable_push g :
  evaluable data g → evaluable data (push_mapping provider data g).
Proof.
  intros H. unfold push_mapping.
  repeat case_match;
    auto using evaluable_delete, evaluable_insert_K.
Qed.

Lemma evaluable_checks g :
  evaluable data g → evaluable data (checks_mapping provider data g).
Proof.
  intros H. unfold checks_mapping.
  repeat case_match;
    auto using evaluable_delete, evaluable_insert_K.
Qed.

Lemma actors_mapping_lookup_ne field target g k :
  k ≠ field → k ≠ target →
  actors_mapping provider data field target g !! k = g !! k.
Proof.
  intros. unfold actors_mapping.
  repeat case_match; by rewrite ?lookup_insert_ne, ?lookup_delete_ne by done.
Qed.

Lemma push_mapping_lookup_ne g k :
  k ≠ "pushRestrictions" → k ≠ "pushActorIds" → k ≠ "restrictsPushes" →
  push_mapping provider data g !! k = g !! k.
Proof.
  intros. unfold push_mapping.
  repeat case_match; by rewrite ?lookup_insert_ne, ?lookup_delete_ne by done.
Qed.

Lemma checks_mapping_lookup_ne g k :
  k ≠ "requiredStatusChecks" →
  checks_mapping provider data g !! k = g !! k.
Proof.
  intros. unfold checks_mapping.
  repeat case_match; by rewrite ?lookup_insert_ne, ?lookup_delete_ne by done.
Qed.

(** The block of an actor field, when it goes through. *)
Lemma run_to_provider_actors field target m g log :
  agrees m g → actors_ok provider data field = true →
  (∀ v, data !! field = Some v → is_unset v = false → is_Some (g !! field)) →
  ∃ m', run (to_provider_actors field target data (Some provider) m) log
        = (Ok m', log ++ actors_calls data field)
        ∧ agrees m' (actors_mapping provider data field target g).
Proof.
  intros Hag Hok Hkey.
  unfold to_provider_actors, actors_ok, actors_calls, actors_mapping in *.
  destruct (data !! field) as [v|].
  - apply andb_prop in Hok as [Hset Hok]. apply negb_true_iff in Hset.
    destruct (agrees_pop field m g Hag (Hkey v eq_refl Hset))
      as (m1 & Hpop & Hag1).
    rewrite run_bind, run_lift, Hpop.
    destruct (is_set_and_valid v).
    + destruct (get_actor_ids provider v) as [actor_ids|] eqn:Hids; [|done].
      exists (ODict.setitem target (K (VList (VStr <$> actor_ids))) m1).
      split; [|by apply agrees_setitem].
      cbn [assert_not_None]. rewrite run_bind, run_ret, run_bind.
      unfold call_get_actor_ids at 1. cbn [run]. by rewrite Hids, run_ret.
    + exists m1. by rewrite run_ret, app_nil_r.
  - exists m. by rewrite run_ret, app_nil_r.
Qed.

(** The block of the push restrictions, when it goes through. *)
Lemma run_to_provider_pushRestrictions m g log :
  agrees m g → actors_ok provider data "pushRestrictions" = true →
  (∀ v, data !! "pushRestrictions" = Some v → is_unset v = false →
        is_Some (g !! "pushRestrictions")) →
  ∃ m', run (to_provider_pushRestrictions data (Some provider) m) log
        = (Ok m', log ++ actors_calls data "pushRestrictions")
        ∧ agrees m' (push_mapping provider data g).
Proof.
  intros Hag Hok Hkey.
  unfold to_provider_pushRestrictions, actors_ok, actors_calls, push_mapping
    in *.
  destruct (data !! "pushRestrictions") as [v|].
  - apply andb_prop in Hok as [Hset Hok]. apply negb_true_iff in Hset.
    destruct (agrees_pop "pushRestrictions" m g Hag (Hkey v eq_refl Hset))
      as (m1 & Hpop & Hag1).
    rewrite run_bind, run_lift, Hpop.
    destruct (is_set_and_valid v).
    + destruct (get_actor_ids provider v) as [actor_ids|] eqn:Hids; [|done].
      eexists. split.
      * cbn [assert_not_None]. rewrite run_bind, run_ret, run_bind.
        unfold call_get_actor_ids at 1. cbn [run]. rewrite Hids, run_ret.
        reflexivity.
      * rewrite flag_nonempty. by do 2 apply agrees_setitem.
    + exists m1. by rewrite run_ret, app_nil_r.
  - exists m. by rewrite run_ret, app_nil_r.
Qed.

(** The block of the status checks, when it goes through. *)
Lemma run_to_provider_requiredStatusChecks m g log :
  agrees m g → checks_ok provider data = true →
  (∀ v, data !! "requiredStatusChecks" = Some v → is_unset v = false →
        is_Some (g !! "requiredStatusChecks")) →
  ∃ m', run (to_provider_requiredStatusChecks data (Some provider) m) log
        = (Ok m', log ++ checks_calls data)
        ∧ agrees m' (checks_mapping provider data g).
Proof.
  intros Hag Hok Hkey.
  unfold to_provider_requiredStatusChecks, checks_ok, checks_calls,
    checks_mapping in *.
  destruct (data !! "requiredStatusChecks") as [v|].
  - apply andb_prop in Hok as [Hset Hok]. apply negb_true_iff in Hset.
    destruct (agrees_pop "requiredStatusChecks" m g Hag (Hkey v eq_refl Hset))
      as (m1 & Hpop & Hag1).
    rewrite run_bind, run_lift, Hpop.
    destruct (is_set_and_valid v).
    + destruct (iter v) as [checks|]; [|done]. rewrite !bind_Ok in *.
      destruct (for_each collect_app_slug checks ∅) as [app_slugs|] eqn:Hcol;
        [|done].
      rewrite !bind_Ok in *.
      destruct (get_app_ids provider app_slugs) as [app_ids|] eqn:Hids;
        [|done].
      rewrite !bind_Ok in *.
      destruct (for_each (transform_check app_ids) checks [])
        as [transformed_checks|] eqn:Htr; [|done].
      eexists. split; [|by apply agrees_setitem].
      cbn [assert_not_None]. rewrite run_bind, run_ret.
      rewrite run_bind, run_lift. cbv beta iota.
      rewrite run_bind, run_lift, Hcol. cbv beta iota.
      rewrite run_bind. unfold call_get_app_ids at 1. cbn [run]. rewrite Hids.
      by rewrite run_bind, run_lift, Htr, run_ret.
    + exists m1. by rewrite run_ret, app_nil_r.
  - exists m. by rewrite run_ret, app_nil_r.
Qed.

Lemma in_provider_fields field :
  field ∈ all_fields → field ≠ "id" → field ∈ provider_fields.
Proof.
  intros Hin Hne. apply list_elem_of_filter. split; [|done].
  unfold external_only. by apply bool_decide_eq_false_2.
Qed.

(** A field the data has, not as the unset sentinel, is in the initial
    mapping. *)
Lemma initial_mapping_has field v :
  field ∈ all_fields → field ≠ "id" →
  data !! field = Some v → is_unset v = false →
  initial_mapping data !! field = Some (S field).
Proof.
  intros Hin Hne Hv Hset. rewrite initial_mapping_lookup.
  rewrite decide_True; [done|]. split; [by apply in_provider_fields|].
  by rewrite Hv.
Qed.

(** [_to_provider] goes through when its five blocks do, asks the resolver
    what the blocks ask, and returns what the final mapping evaluates to. *)
Lemma run_to_provider log :
  actors_ok provider data "pushRestrictions" = true →
  actors_ok provider data "reviewDismissalAllowances" = true →
  actors_ok provider data "bypassPullRequestAllowances" = true →
  actors_ok provider data "bypassForcePushAllowances" = true →
  checks_ok provider data = true →
  ∃ out, run (_to_provider data (Some provider)) log
         = (Ok out, log ++ all_calls data)
         ∧ ∀ k, out !! k
                = final_mapping provider data !! k
                    ≫= λ b, ok_value (execute b data).
Proof.
  intros Hpush Hreview Hbypass Hforce Hchecks. unfold _to_provider.
  pose proof agrees_initial as Hag0.
  set (g0 := initial_mapping data) in *.
  destruct (run_to_provider_pushRestrictions _ g0 log Hag0 Hpush)
    as (m1 & Hrun1 & Hag1).
  { intros v Hv Hset. exists (S "pushRestrictions").
    apply (initial_mapping_has _ v); [in_fields | done | done | done]. }
  set (g1 := push_mapping provider data g0) in *.
  set (log1 := log ++ actors_calls data "pushRestrictions") in *.
  destruct (run_to_provider_actors "reviewDismissalAllowances"
              "reviewDismissalActorIds" m1 g1 log1 Hag1 Hreview)
    as (m2 & Hrun2 & Hag2).
  { intros v Hv Hset. exists (S "reviewDismissalAllowances"). unfold g1.
    rewrite push_mapping_lookup_ne by done.
    apply (initial_mapping_has _ v); [in_fields | done | done | done]. }
  set (g2 := actors_mapping provider data _ _ g1) in *.
  set (log2 := log1 ++ actors_calls data "reviewDismissalAllowances") in *.
  destruct (run_to_provider_actors "bypassPullRequestAllowances"
              "bypassPullRequestActorIds" m2 g2 log2 Hag2 Hbypass)
    as (m3 & Hrun3 & Hag3).
  { intros v Hv Hset. exists (S "bypassPullRequestAllowances").
    unfold g2, g1.
    rewrite actors_mapping_lookup_ne, push_mapping_lookup_ne by done.
    apply (initial_mapping_has _ v); [in_fields | done | done | done]. }
  set (g3 := actors_mapping provider data _ _ g2) in *.
  set (log3 := log2 ++ actors_calls data "bypassPullRequestAllowances") in *.
  destruct (run_to_provider_actors "bypassForcePushAllowances"
              "bypassForcePushActorIds" m3 g3 log3 Hag3 Hforce)
    as (m4 & Hrun4 & Hag4).
  { intros v Hv Hset. exists (S "bypassForcePushAllowances").
    unfold g3, g2, g1.
    rewrite !actors_mapping_lookup_ne, push_mapping_lookup_ne by done.
    apply (initial_mapping_has _ v); [in_fields | done | done | done]. }
  set (g4 := actors_mapping provider data _ _ g3) in *.
  set (log4 := log3 ++ actors_calls data "bypassForcePushAllowances") in *.
  destruct (run_to_provider_requiredStatusChecks m4 g4 log4 Hag4 Hchecks)
    as (m5 & Hrun5 & Hag5).
  { intros v Hv Hset. exists (S "requiredStatusChecks").
    unfold g4, g3, g2, g1.
    rewrite !actors_mapping_lookup_ne, push_mapping_lookup_ne by done.
    apply (initial_mapping_has _ v); [in_fields | done | done | done]. }
  destruct (bend_agrees m5 _ data Hag5) as (out & Hbend & Hout).
  { intros k b Hb.
    assert (Hev : evaluable data (checks_mapping provider data g4)).
    { apply evaluable_checks. unfold g4, g3, g2, g1.
      do 3 apply evaluable_actors. apply evaluable_push, evaluable_initial. }
    destruct (Hev k b Hb) as [[-> [v Hv]]|[v ->]]; simpl; [|by eexists].
    rewrite Hv. by eexists. }
  exists out. split; [|exact Hout].
  rewrite run_bind, Hrun1, run_bind, Hrun2, run_bind, Hrun3, run_bind, Hrun4.
  rewrite run_bind, Hrun5, run_lift, Hbend.
  unfold all_calls, log4, log3, log2, log1. by rewrite <- !app_assoc.
Qed.

End ToProvider.

(** ** The claims on the codec and the payload *)

Section PayloadClaims.

Import JsonBender.
Variable provider : Github.
Variable data : gmap string value.

Lemma app_calls_actors field : app_calls (actors_calls data field) = [].
Proof. unfold actors_calls. by repeat case_match. Qed.

Lemma app_calls_app log1 log2 :
  app_calls (log1 ++ log2) = app_calls log1 ++ app_calls log2.
Proof. apply omap_app. Qed.

(** The pipeline of the status-check block on a list of tokens. *)
Lemma checks_pipeline tokens app_ids entries :
  get_app_ids provider (referenced_slugs tokens) = Ok app_ids →
  Forall2 (λ token entry, encode app_ids token = Some entry) tokens entries →
  (checks ← iter (VList (VStr <$> tokens));
   app_slugs ← for_each collect_app_slug checks ∅;
   app_ids ← get_app_ids provider app_slugs;
   for_each (transform_check app_ids) checks []) = Ok entries.
Proof.
  intros Hids Henc. cbn [iter]. rewrite bind_Ok, for_each_collect, bind_Ok.
  rewrite (left_id_L ∅ (∪)), Hids, bind_Ok.
  by rewrite (for_each_transform _ _ entries).
Qed.

(** [_to_provider] on data whose status checks are a list of tokens. *)
Lemma run_to_provider_tokens tokens app_ids entries :
  data !! "requiredStatusChecks" = Some (VList (VStr <$> tokens)) →
  actors_ok provider data "pushRestrictions" = true →
  actors_ok provider data "reviewDismissalAllowances" = true →
  actors_ok provider data "bypassPullRequestAllowances" = true →
  actors_ok provider data "bypassForcePushAllowances" = true →
  get_app_ids provider (referenced_slugs tokens) = Ok app_ids →
  Forall2 (λ token entry, encode app_ids token = Some entry) tokens entries →
  ∃ out log,
    run (_to_provider data (Some provider)) [] = (Ok out, log)
    ∧ out !! "requiredStatusChecks" = Some (VList entries)
    ∧ app_calls log = [referenced_slugs tokens].
Proof.
  intros Hdata Hpush Hreview Hbypass Hforce Hids Henc.
  pose proof (checks_pipeline tokens app_ids entries Hids Henc) as Hpipe.
  destruct (run_to_provider provider data [] Hpush Hreview Hbypass Hforce)
    as (out & Hrun & Hout).
  { unfold checks_ok. rewrite Hdata. cbn [is_unset is_set_and_valid is_None negb andb].
    by rewrite Hpipe. }
  exists out, ([] ++ all_calls data). split_and!; [done| |].
  - rewrite Hout. unfold final_mapping.
    unfold checks_mapping at 1. rewrite Hdata.
    cbn [is_unset is_set_and_valid is_None negb andb]. rewrite Hpipe.
    by rewrite lookup_insert_eq.
  - unfold all_calls. rewrite app_nil_l, !app_calls_app, !app_calls_actors.
    unfold checks_calls. rewrite Hdata.
    cbn [is_unset is_set_and_valid is_None negb andb iter].
    rewrite bind_Ok, for_each_collect. cbn [app_calls omap].
    by rewrite (left_id_L ∅ (∪)).
Qed.

(** C3.  A set-and-valid list of tokens is encoded entry by entry, each
    token split at its first colon: a token without a colon gets the
    identifier of "github-actions" and itself as context; ["any:" + c]
    gets the sentinel identifier "any" and the context [c]; [s + ":" + c]
    with another slug [s] gets the resolver's identifier of [s] and the
    context [c]. *)
Theorem C3_encode_status_checks tokens app_ids :
  data !! "requiredStatusChecks" = Some (VList (VStr <$> tokens)) →
  actors_ok provider data "pushRestrictions" = true →
  actors_ok provider data "reviewDismissalAllowances" = true →
  actors_ok provider data "bypassPullRequestAllowances" = true →
  actors_ok provider data "bypassForcePushAllowances" = true →
  get_app_ids provider (referenced_slugs tokens) = Ok app_ids →
  referenced_slugs tokens ⊆ dom app_ids →
  ∃ out log entries,
    run (_to_provider data (Some provider)) [] = (Ok out, log)
    ∧ out !! "requiredStatusChecks" = Some (VList entries)
    ∧ length entries = length tokens
    ∧ ∀ i token, tokens !! i = Some token →
        (str_contains colon token = false →
         ∃ app_id, app_ids !! "github-actions" = Some app_id
                   ∧ entries !! i = Some (wire_check app_id (VStr token)))
        ∧ (∀ c, token = "any:" +:+ c →
                entries !! i = Some (wire_check "any" (VStr c)))
        ∧ (∀ s c, token = s +:+ ":" +:+ c →
                  str_contains colon s = false → s ≠ "any" →
                  ∃ app_id, app_ids !! s = Some app_id
                            ∧ entries !! i = Some (wire_check app_id (VStr c))).
Proof.
  intros Hdata Hpush Hreview Hbypass Hforce Hids Hcover.
  destruct (encode_all app_ids tokens) as [entries Henc].
  { intros slug Hin. apply elem_of_dom. by apply Hcover. }
  destruct (run_to_provider_tokens tokens app_ids entries)
    as (out & log & Hrun & Hout & _); try done.
  exists out, log, entries. split_and!; [done | done | |].
  { symmetry. by eapply Forall2_length. }
  intros i token Hi.
  destruct (Forall2_lookup_l _ _ _ _ _ Henc Hi) as (entry & Hentry & Hencode).
  rewrite Hentry. unfold encode, token_slug, token_context in Hencode.
  split_and!.
  - intros Hc. apply split_first_None in Hc. rewrite Hc in Hencode.
    rewrite bool_decide_eq_false_2 in Hencode by done.
    destruct (app_ids !! "github-actions") as [app_id|]; [|done].
    exists app_id. split; [done|]. by injection Hencode as <-.
  - intros c ->. rewrite (token_split_any c) in Hencode.
    rewrite bool_decide_eq_true_2 in Hencode by done. done.
  - intros s c -> Hs Hne. rewrite (token_split s c Hs) in Hencode.
    rewrite bool_decide_eq_false_2 in Hencode by done.
    destruct (app_ids !! s) as [app_id|]; [|done].
    exists app_id. split; [done|]. by injection Hencode as <-.
Qed.

(** C5.  Encoding a set-and-valid list of tokens asks the resolver for app
    identifiers exactly once, with the set of the distinct slugs of the
    list (the default slug for a bare token, the sentinel left out), and
    every entry of a token whose slug is not the sentinel carries the
    identifier resolved for that slug. *)
Theorem C5_batched_resolution tokens app_ids :
  data !! "requiredStatusChecks" = Some (VList (VStr <$> tokens)) →
  actors_ok provider data "pushRestrictions" = true →
  actors_ok provider data "reviewDismissalAllowances" = true →
  actors_ok provider data "bypassPullRequestAllowances" = true →
  actors_ok provider data "bypassForcePushAllowances" = true →
  get_app_ids provider (referenced_slugs tokens) = Ok app_ids →
  referenced_slugs tokens ⊆ dom app_ids →
  ∃ out log entries,
    run (_to_provider data (Some provider)) [] = (Ok out, log)
    ∧ app_calls log = [referenced_slugs tokens]
    ∧ (∀ slug, slug ∈ referenced_slugs tokens
               ↔ slug ≠ "any" ∧ ∃ token, token ∈ tokens
                                          ∧ token_slug token = slug)
    ∧ out !! "requiredStatusChecks" = Some (VList entries)
    ∧ ∀ i token, tokens !! i = Some token → token_slug token ≠ "any" →
        ∃ app_id, app_ids !! token_slug token = Some app_id
                  ∧ entries !! i
                    = Some (wire_check app_id (VStr (token_context token))).
Proof.
  intros Hdata Hpush Hreview Hbypass Hforce Hids Hcover.
  destruct (encode_all app_ids tokens) as [entries Henc].
  { intros slug Hin. apply elem_of_dom. by apply Hcover. }
  destruct (run_to_provider_tokens tokens app_ids entries)
    as (out & log & Hrun & Hout & Hcalls); try done.
  exists out, log, entries. split_and!; [done | done | | done |].
  - intros slug. unfold referenced_slugs.
    rewrite elem_of_difference, elem_of_list_to_set, list_elem_of_fmap.
    rewrite not_elem_of_singleton. naive_solver.
  - intros i token Hi Hne.
    destruct (Forall2_lookup_l _ _ _ _ _ Henc Hi)
      as (entry & Hentry & Hencode).
    rewrite Hentry. unfold encode in Hencode.
    rewrite bool_decide_eq_false_2 in Hencode by done.
    destruct (app_ids !! token_slug token) as [app_id|]; [|done].
    exists app_id. split; [done|]. by injection Hencode as <-.
Qed.

(** C6.  When [pushRestrictions] is present, set and valid, the payload
    has no [pushRestrictions], has [pushActorIds] with the identifiers the
    resolver returned, in their order, and has a boolean [restrictsPushes]
    that is true exactly when that list is not empty; with a resolver that
    gives one identifier for each reference, the empty list of references
    yields [restrictsPushes = false]. *)
Theorem C6_push_restrictions v actor_ids :
  data !! "pushRestrictions" = Some v →
  is_set_and_valid v = true →
  get_actor_ids provider v = Ok actor_ids →
  actors_ok provider data "reviewDismissalAllowances" = true →
  actors_ok provider data "bypassPullRequestAllowances" = true →
  actors_ok provider data "bypassForcePushAllowances" = true →
  checks_ok provider data = true →
  ∃ out log,
    run (_to_provider data (Some provider)) [] = (Ok out, log)
    ∧ out !! "pushRestrictions" = None
    ∧ out !! "pushActorIds" = Some (VList (VStr <$> actor_ids))
    ∧ (∃ flag, out !! "restrictsPushes" = Some (VBool flag)
               ∧ (flag = true ↔ actor_ids ≠ []))
    ∧ (one_id_per_reference provider → v = VList [] →
       out !! "restrictsPushes" = Some (VBool false)).
Proof.
  intros Hdata Hvalid Hids Hreview Hbypass Hforce Hchecks.
  assert (Hset : is_unset v = false).
  { unfold is_set_and_valid in Hvalid. apply andb_prop in Hvalid as [H _].
    by apply negb_true_iff in H. }
  destruct (run_to_provider provider data []) as (out & Hrun & Hout);
    try done.
  { unfold actors_ok. by rewrite Hdata, Hset, Hvalid, Hids. }
  assert (Hlook : ∀ k, k ≠ "requiredStatusChecks" →
                       k ≠ "bypassForcePushAllowances" →
                       k ≠ "bypassForcePushActorIds" →
                       k ≠ "bypassPullRequestAllowances" →
                       k ≠ "bypassPullRequestActorIds" →
                       k ≠ "reviewDismissalAllowances" →
                       k ≠ "reviewDismissalActorIds" →
                       final_mapping provider data !! k
                       = <["restrictsPushes" :=
                             K (VBool (bool_decide (actor_ids ≠ [])))]>
                           (<["pushActorIds" :=
                                K (VList (VStr <$> actor_ids))]>
                              (delete "pushRestrictions"
                                 (initial_mapping data))) !! k).
  { intros k ???????. unfold final_mapping.
    rewrite checks_mapping_lookup_ne, !actors_mapping_lookup_ne by done.
    unfold push_mapping. by rewrite Hdata, Hvalid, Hids. }
  assert (Hflag : out !! "restrictsPushes"
                  = Some (VBool (bool_decide (actor_ids ≠ [])))).
  { rewrite Hout, Hlook by done. by rewrite lookup_insert_eq. }
  exists out, ([] ++ all_calls data). split_and!; [done| | | |].
  - rewrite Hout, Hlook by done.
    by rewrite !lookup_insert_ne, lookup_delete_eq by done.
  - rewrite Hout, Hlook by done.
    by rewrite lookup_insert_ne, lookup_insert_eq by done.
  - eexists. split; [exact Hflag|]. apply bool_decide_eq_true.
  - intros Hone ->. rewrite Hflag. do 2 f_equal.
    apply bool_decide_eq_false_2. intros Hne. apply Hne.
    apply length_zero_iff_nil. by rewrite (Hone [] actor_ids Hids).
Qed.

End PayloadClaims.

Section CodecClaims.

Variable str_other : value → string.

Lemma reported_check_wire app app_id context' :
  reported_check app (wire_check app_id context')
  = Ok (VDict {[ "app" := match app with
                          | Some slug => VDict {[ "slug" := VStr slug ]}
                          | None => VNone
                          end;
                 "context" := context' ]}).
Proof. reflexivity. Qed.

(** C4, as amended.  For every context [c], ["any:" + c] survives encoding
    and decoding with the app absent; a bare [c] without a colon survives
    it with the app "github-actions"; and [s + ":" + c] survives it with
    the app [s], for every slug [s] without a colon other than
    "github-actions" and "any" (the resolver knowing the slug that is
    looked up). *)
Theorem C4_round_trip (app_ids : gmap string string) (c : string) :
  round_trip str_other app_ids None ("any:" +:+ c) = Ok ("any:" +:+ c)
  ∧ (str_contains colon c = false →
     is_Some (app_ids !! "github-actions") →
     round_trip str_other app_ids (Some "github-actions") c = Ok c)
  ∧ (∀ s, s ≠ "github-actions" → s ≠ "any" →
          str_contains colon s = false → is_Some (app_ids !! s) →
          round_trip str_other app_ids (Some s) (s +:+ ":" +:+ c)
          = Ok (s +:+ ":" +:+ c)).
Proof.
  unfold round_trip. split_and!.
  - rewrite transform_check_token. unfold encode, token_slug, token_context.
    rewrite (token_split_any c), bool_decide_eq_true_2 by done.
    rewrite bind_Ok. cbn [app]. rewrite reported_check_wire, bind_Ok.
    by apply transform_app_absent.
  - intros Hc [app_id Hid]. rewrite transform_check_token.
    unfold encode, token_slug, token_context.
    apply split_first_None in Hc. rewrite Hc.
    rewrite bool_decide_eq_false_2 by done. rewrite Hid.
    cbn [mbind option_bind]. rewrite bind_Ok. cbn [app].
    rewrite reported_check_wire, bind_Ok.
    by apply (transform_app_default _ _ {[ "slug" := VStr "github-actions" ]}).
  - intros s Hne Hany Hs [app_id Hid]. rewrite transform_check_token.
    unfold encode, token_slug, token_context. rewrite (token_split s c Hs).
    rewrite bool_decide_eq_false_2 by done. rewrite Hid.
    cbn [mbind option_bind]. rewrite bind_Ok. cbn [app].
    rewrite reported_check_wire, bind_Ok.
    by apply (transform_app_other _ _ {[ "slug" := VStr s ]}).
Qed.

(** C10.  A provider status check whose app has the slug "any" decodes to
    ["any:" + c]; that token encodes to the sentinel entry, whatever the
    resolver would say about a slug "any"; and the set of slugs the
    collecting loop hands to the resolver never holds "any". *)
Theorem C10_app_named_any (d app : gmap string value) (c : string) :
  d !! "app" = Some (VDict app) →
  app !! "slug" = Some (VStr "any") →
  d !! "context" = Some (VStr c) →
  transform_app str_other (VDict d) = Ok ("any:" +:+ c)
  ∧ (∀ app_ids transformed_checks,
       transform_check app_ids transformed_checks (VStr ("any:" +:+ c))
       = Ok (transformed_checks ++ [wire_check "any" (VStr c)]))
  ∧ (∀ checks app_slugs,
       for_each collect_app_slug checks ∅ = Ok app_slugs → "any" ∉ app_slugs)
  ∧ (∀ provider data tokens app_ids i,
       data !! "requiredStatusChecks" = Some (VList (VStr <$> tokens)) →
       tokens !! i = Some ("any:" +:+ c) →
       actors_ok provider data "pushRestrictions" = true →
       actors_ok provider data "reviewDismissalAllowances" = true →
       actors_ok provider data "bypassPullRequestAllowances" = true →
       actors_ok provider data "bypassForcePushAllowances" = true →
       get_app_ids provider (referenced_slugs tokens) = Ok app_ids →
       referenced_slugs tokens ⊆ dom app_ids →
       ∃ out log entries,
         run (_to_provider data (Some provider)) [] = (Ok out, log)
         ∧ out !! "requiredStatusChecks" = Some (VList entries)
         ∧ entries !! i = Some (wire_check "any" (VStr c))
         ∧ ∀ app_slugs, app_slugs ∈ app_calls log → "any" ∉ app_slugs).
Proof.
  intros Happ Hslug Hc. split_and!.
  - by apply (transform_app_other str_other d app "any" c).
  - intros app_ids acc. rewrite transform_check_token.
    unfold encode, token_slug, token_context.
    rewrite (token_split_any c).
    by rewrite bool_decide_eq_true_2 by done.
  - intros checks app_slugs. apply for_each_collect_no_any. set_solver.
  - intros provider data tokens app_ids i Hdata Hi Hpush Hreview Hbypass
      Hforce Hids Hcover.
    destruct (encode_all app_ids tokens) as [entries Henc].
  { intros slug Hin. apply elem_of_dom. by apply Hcover. }
    destruct (run_to_provider_tokens provider data tokens app_ids entries)
      as (out & log & Hrun & Hout & Hcalls); try done.
    exists out, log, entries. split_and!; [done | done | |].
    + destruct (Forall2_lookup_l _ _ _ _ _ Henc Hi)
        as (entry & Hentry & Hencode).
      rewrite Hentry. unfold encode, token_slug, token_context in Hencode.
      rewrite (token_split_any c) in Hencode.
      by rewrite bool_decide_eq_true_2 in Hencode by done.
    + intros app_slugs. rewrite Hcalls. intros ->%list_elem_of_singleton.
      unfold referenced_slugs. set_solver.
Qed.

End CodecClaims.

(** ** The properties at concrete inputs *)

Lemma response_complete k : k ∈ all_fields → is_Some (Examples.response !! k).
Proof.
  intros Hk. apply list_elem_of_In in Hk. simpl in Hk.
  repeat (destruct Hk as [<-|Hk]; [by eexists|]). destruct Hk.
Qed.

Lemma resolver_one_id_per_reference : one_id_per_reference Examples.resolver.
Proof.
  intros references actor_ids. simpl. intros [= <-]. by rewrite length_fmap.
Qed.

Lemma C2_decode_status_check_witness :
  transform_app Examples.str_other (VDict (Examples.status_check VNone "lint"))
  = Ok "any:lint"
  ∧ ∃ inst, from_provider Examples.str_other Examples.response = Ok inst
            ∧ requiredStatusChecks inst
              = VList [VStr "any:lint"; VStr "build"; VStr "circleci:test"].
Proof.
  pose proof (C2_decode_status_check Examples.str_other
                (Examples.status_check VNone "lint") "lint" eq_refl)
    as (Habsent & _ & _ & Hall).
  split; [by apply Habsent|].
  apply (Hall Examples.response _ ["any:lint"; "build"; "circleci:test"]
           response_complete eq_refl).
  repeat constructor.
Defined.

Lemma C3_encode_status_checks_witness :
  ∃ out log entries,
    run (_to_provider Examples.rule_data (Some Examples.resolver)) []
    = (Ok out, log)
    ∧ out !! "requiredStatusChecks" = Some (VList entries)
    ∧ entries !! 0 = Some (wire_check "any" (VStr "lint"))
    ∧ entries !! 1 = Some (wire_check "APP_github-actions" (VStr "build"))
    ∧ entries !! 2 = Some (wire_check "APP_circleci" (VStr "test")).
Proof.
  destruct (C3_encode_status_checks Examples.resolver Examples.rule_data
              Examples.tokens
              (set_to_map (λ slug, (slug, "APP_" +:+ slug))
                 (referenced_slugs Examples.tokens))
              eq_refl eq_refl eq_refl eq_refl eq_refl eq_refl)
    as (out & log & entries & Hrun & Hout & _ & Hentries).
  { apply (bool_decide_unpack _). by vm_compute. }
  exists out, log, entries. split_and!; [done | done | | |].
  - apply (proj1 (proj2 (Hentries 0 "any:lint" eq_refl)) "lint" eq_refl).
  - destruct (proj1 (Hentries 1 "build" eq_refl) eq_refl)
      as (app_id & Hid & Hentry).
    vm_compute in Hid. by injection Hid as <-.
  - destruct (proj2 (proj2 (Hentries 2 "circleci:test" eq_refl))
                "circleci" "test" eq_refl eq_refl)
      as (app_id & Hid & Hentry); [done|].
    vm_compute in Hid. by injection Hid as <-.
Defined.

Lemma C4_round_trip_witness :
  round_trip Examples.str_other Examples.app_ids None "any:lint"
  = Ok "any:lint"
  ∧ round_trip Examples.str_other Examples.app_ids (Some "github-actions")
      "build" = Ok "build"
  ∧ round_trip Examples.str_other Examples.app_ids (Some "circleci")
      "circleci:test" = Ok "circleci:test".
Proof.
  split_and!.
  - apply (proj1 (C4_round_trip Examples.str_other Examples.app_ids "lint")).
  - apply (proj1 (proj2 (C4_round_trip Examples.str_other Examples.app_ids
                           "build")) eq_refl); by eexists.
  - apply (proj2 (proj2 (C4_round_trip Examples.str_other Examples.app_ids
                           "test")) "circleci"); try done; by eexists.
Defined.

(** C4 as stated fails: a bare context with a colon comes back without
    what stood before the colon, and a slug with a colon comes back
    changed. *)
Lemma C4_colon_breaks_round_trip :
  round_trip Examples.str_other Examples.app_ids (Some "github-actions") "a:b"
  = Ok "b"
  ∧ round_trip Examples.str_other Examples.app_ids (Some "a:b")
      ("a:b" +:+ ":" +:+ "c") = Ok "a:b:b:c"
  ∧ "a:b" ≠ "github-actions" ∧ "a:b" ≠ "any".
Proof. by split_and!. Qed.

Lemma C5_batched_resolution_witness :
  ∃ out log,
    run (_to_provider Examples.rule_data (Some Examples.resolver)) []
    = (Ok out, log)
    ∧ app_calls log = [ {[ "github-actions"; "circleci" ]} ].
Proof.
  destruct (C5_batched_resolution Examples.resolver Examples.rule_data
              Examples.tokens
              (set_to_map (λ slug, (slug, "APP_" +:+ slug))
                 (referenced_slugs Examples.tokens))
              eq_refl eq_refl eq_refl eq_refl eq_refl eq_refl)
    as (out & log & entries & Hrun & Hcalls & _).
  { apply (bool_decide_unpack _). by vm_compute. }
  exists out, log. split; [done|]. rewrite Hcalls. reflexivity.
Defined.

Lemma C6_push_restrictions_witness :
  (∃ out log,
     run (_to_provider Examples.rule_data (Some Examples.resolver)) []
     = (Ok out, log)
     ∧ out !! "pushRestrictions" = None
     ∧ out !! "pushActorIds" = Some (VList [VStr "ID_team-a"])
     ∧ out !! "restrictsPushes" = Some (VBool true))
  ∧ (∃ out log,
       run (_to_provider Examples.rule_data_open (Some Examples.resolver)) []
       = (Ok out, log)
       ∧ out !! "restrictsPushes" = Some (VBool false)).
Proof.
  split.
  - destruct (C6_push_restrictions Examples.resolver Examples.rule_data
                (VList [VStr "team-a"]) ["ID_team-a"]
                eq_refl eq_refl eq_refl eq_refl eq_refl eq_refl eq_refl)
      as (out & log & Hrun & Hgone & Hids & (flag & Hflag & Hiff) & _).
    exists out, log. split_and!; [done | done | done |].
    rewrite Hflag. do 2 f_equal. by apply Hiff.
  - destruct (C6_push_restrictions Examples.resolver Examples.rule_data_open
                (VList []) []
                eq_refl eq_refl eq_refl eq_refl eq_refl eq_refl eq_refl)
      as (out & log & Hrun & _ & _ & _ & Hempty).
    exists out, log. split; [done|].
    by apply Hempty; [apply resolver_one_id_per_reference|].
Defined.

Lemma C8_missing_key_witness :
  (∃ inst, from_model (delete "lockBranch" Examples.response) = Ok inst
           ∧ getattr inst "lockBranch" = Some UNSET)
  ∧ from_provider Examples.str_other (delete "lockBranch" Examples.response)
    = Raise (BendingException "lockBranch" (KeyError "lockBranch")).
Proof.
  destruct (C8_missing_key Examples.str_other
              (delete "lockBranch" Examples.response) "lockBranch")
    as [(inst & Hinst & Hunset & _) (k & Hk & Hnone & Hraise)];
    [in_fields | reflexivity |].
  split; [by exists inst|].
  rewrite Hraise. clear Hraise Hinst Hunset inst.
  apply list_elem_of_In in Hk. simpl in Hk.
  repeat destruct Hk as [<-|Hk]; try done.
Defined.

Lemma C10_app_named_any_witness :
  transform_app Examples.str_other
    (VDict (Examples.status_check (VDict (Examples.app_object "any")) "lint"))
  = Ok "any:lint"
  ∧ transform_check {[ "any" := "APP_9" ]} [] (VStr "any:lint")
    = Ok [wire_check "any" (VStr "lint")]
  ∧ ∃ out log entries,
      run (_to_provider Examples.rule_data (Some Examples.resolver)) []
      = (Ok out, log)
      ∧ out !! "requiredStatusChecks" = Some (VList entries)
      ∧ entries !! 0 = Some (wire_check "any" (VStr "lint"))
      ∧ ∀ app_slugs, app_slugs ∈ app_calls log → "any" ∉ app_slugs.
Proof.
  pose proof (C10_app_named_any Examples.str_other
                (Examples.status_check (VDict (Examples.app_object "any"))
                   "lint")
                (Examples.app_object "any") "lint" eq_refl eq_refl eq_refl)
    as (Hdecode & Hencode & _ & Hpayload).
  split_and!; [done | apply (Hencode _ []) |].
  apply (Hpayload Examples.resolver Examples.rule_data Examples.tokens
           (set_to_map (λ slug, (slug, "APP_" +:+ slug))
              (referenced_slugs Examples.tokens)) 0
           eq_refl eq_refl eq_refl eq_refl eq_refl eq_refl eq_refl).
  apply (bool_decide_unpack _). by vm_compute.
Defined.
